(** * Yeelight discovery engine ([src/discover.ts])

    A shallow embedding of the [Discover] class: the device list with its
    [addDevice] upsert, the poll-timer callback of [start], [destroy], and
    the datagram handler [onSocketMessage], run over an explicit event loop.

    JavaScript numbers that the class counts with ([ts], [limit],
    [timeout], array indices) are integers here: [ts] only ever holds
    multiples of 200, which a double represents exactly far beyond any
    run that can be observed. *)

From Stdlib Require Import ZArith String Ascii DecimalString.
From stdpp Require Import base list strings.

Local Open Scope Z_scope.

(** ** Devices and the device list *)

(** Modelled from the spec: [models/device.ts] is not part of the sources
    at hand.  A device record carries its identifier, the network address
    and the model metadata taken from the reply; only [id] is read by the
    class. *)
Record IDevice := { id : string; location : string; model : string }.

(** [Array.prototype.findIndex] with the predicate [x => x.id === device.id]:
    the index of the first match, or -1. *)
Fixpoint findIndexFrom (i : Z) (key : string) (xs : list IDevice) : Z :=
  match xs with
  | [] => -1
  | x :: xs' => if String.eqb (id x) key then i else findIndexFrom (i + 1) key xs'
  end.

Definition findIndex (key : string) (xs : list IDevice) : Z :=
  findIndexFrom 0 key xs.

(** [addDevice]: the new device list and the returned flag. *)
Definition addDevice (devices : list IDevice) (device : IDevice) : list IDevice * Z :=
  let existDevice := findIndex (id device) devices in
  if existDevice <=? 0 then (devices ++ [device], 1)
  else (<[Z.to_nat existDevice := device]> devices, 0).

(** The ids held by a device list, in order. *)
Definition ids (xs : list IDevice) : list string := map id xs.

(** The record a lookup by identifier yields: the first one carrying it. *)
Definition lookupById (key : string) (xs : list IDevice) : option IDevice :=
  List.find (fun x => String.eqb (id x) key) xs.

(** [count()] of the registry. *)
Definition count (xs : list IDevice) : Z := Z.of_nat (length xs).

(** ** Promises *)

(** A promise settles once: [resolve] and [reject] on a settled promise
    do nothing. *)
Inductive Promise (A E : Type) : Type :=
  | Pending
  | Fulfilled (a : A)
  | Rejected (e : E).
Arguments Pending {A E}.
Arguments Fulfilled {A E} a.
Arguments Rejected {A E} e.

Definition resolve {A E} (a : A) (p : Promise A E) : Promise A E :=
  match p with Pending => Fulfilled a | _ => p end.

Definition reject {A E} (e : E) (p : Promise A E) : Promise A E :=
  match p with Pending => Rejected e | _ => p end.

Definition settled {A E} (p : Promise A E) : bool :=
  match p with Pending => false | _ => true end.

(** Errors raised by the platform. *)
Inductive JsError :=
  | ERR_SOCKET_ALREADY_BOUND
  | ERR_SOCKET_DGRAM_NOT_RUNNING
  | ERR_SOCKET_BAD_PORT
  | TypeError
  | SystemError (code : string).

(** What [start]'s promise can be rejected with: an error object (the
    [err] of the send callback, or an exception escaping the executor), or
    the text built by the poll timer. *)
Inductive Reason :=
  | Err (e : JsError)
  | Text (s : string).

(** [resolve(this.devices)] hands out the array object itself, not a copy:
    the fulfilled value is a reference, read through the engine's current
    device list. *)
Inductive ArrayRef := ThisDevices.

(** ** The datagram socket

    The class drives a [dgram.Socket] of the platform (Node.js), which is
    not code of the class.  This module is the contract of that socket as
    far as the class exercises it: [bind] on a socket that is binding or
    bound throws, every call on a closed socket throws, a bind that fails
    leaves the socket unbound, [send] throws on a port outside 1..65535
    before it hands anything to the network, [close] registers its callback
    for the close event before it checks the socket, and a closed socket
    receives nothing. *)
Module Dgram.

Inductive BindState := BIND_STATE_UNBOUND | BIND_STATE_BINDING | BIND_STATE_BOUND.

Record Datagram := { payload : string; port : Z; address : string }.

Record Socket := {
  bindState : BindState;
  handle : bool;                 (* the open OS handle; [false] once closed *)
  broadcast : bool;
  closeListeners : list nat;     (* callbacks waiting for the close event *)
  closeEmitted : bool;
  sent : list Datagram
}.

Definition createSocket : Socket :=
  {| bindState := BIND_STATE_UNBOUND; handle := true; broadcast := false;
     closeListeners := []; closeEmitted := false; sent := [] |}.

Definition healthCheck (s : Socket) : option JsError :=
  if handle s then None else Some ERR_SOCKET_DGRAM_NOT_RUNNING.

Definition isUnbound (s : Socket) : bool :=
  match bindState s with BIND_STATE_UNBOUND => true | _ => false end.

Definition withBindState (b : BindState) (s : Socket) : Socket :=
  {| bindState := b; handle := handle s; broadcast := broadcast s;
     closeListeners := closeListeners s; closeEmitted := closeEmitted s;
     sent := sent s |}.

(** [socket.bind(port, host, cb)]: throws, or starts binding. *)
Definition bind (s : Socket) : JsError + Socket :=
  match healthCheck s with
  | Some e => inl e
  | None =>
      if isUnbound s then inr (withBindState BIND_STATE_BINDING s)
      else inl ERR_SOCKET_ALREADY_BOUND
  end.

Definition setBroadcast (flag : bool) (s : Socket) : Socket :=
  {| bindState := bindState s; handle := handle s; broadcast := flag;
     closeListeners := closeListeners s; closeEmitted := closeEmitted s;
     sent := sent s |}.

Definition validPort (p : Z) : bool := (0 <? p) && (p <=? 65535).

(** What [socket.send(msg, port, address, cb)] throws, if anything: the
    port is validated first, then the socket is checked. *)
Definition sendError (d : Datagram) (s : Socket) : option JsError :=
  if validPort (port d) then healthCheck s else Some ERR_SOCKET_BAD_PORT.

(** [socket.send(msg, port, address, cb)] on a bound socket: throws, or
    hands the datagram to the network; the callback comes later. *)
Definition send (d : Datagram) (s : Socket) : JsError + Socket :=
  match sendError d s with
  | Some e => inl e
  | None =>
      inr {| bindState := bindState s; handle := handle s; broadcast := broadcast s;
             closeListeners := closeListeners s; closeEmitted := closeEmitted s;
             sent := sent s ++ [d] |}
  end.

(** [socket.close(cb)]: the callback is added as a close listener first;
    then a socket already closed throws, an open one drops its handle. *)
Definition close (cb : nat) (s : Socket) : Socket * option JsError :=
  let s' := {| bindState := bindState s; handle := false; broadcast := broadcast s;
               closeListeners := closeListeners s ++ [cb];
               closeEmitted := closeEmitted s; sent := sent s |} in
  (s', healthCheck s).

Definition emitClose (s : Socket) : Socket :=
  {| bindState := bindState s; handle := handle s; broadcast := broadcast s;
     closeListeners := closeListeners s; closeEmitted := true; sent := sent s |}.

(** Datagrams reach the message listener only while the socket is bound
    and open. *)
Definition receiving (s : Socket) : bool :=
  handle s && match bindState s with BIND_STATE_BOUND => true | _ => false end.

End Dgram.

(** ** Configuration *)

(** [this.options] after the constructor merged the caller's object over
    the defaults. *)
Record IDiscoverConfig := {
  debug : bool;
  host : string;
  limit : Z;
  multicastHost : string;
  port : Z;
  timeout : Z
}.

(** The caller's object: every field may be left out. *)
Module Given.
Record t := {
  debug : option bool;
  host : option string;
  limit : option Z;
  multicastHost : option string;
  port : option Z;
  timeout : option Z
}.
Definition none : t :=
  {| debug := None; host := None; limit := None; multicastHost := None;
     port := None; timeout := None |}.
End Given.

Definition defaultOptions : IDiscoverConfig :=
  {| debug := true; host := EmptyString; limit := 1;
     multicastHost := "239.255.255.250"; port := 1982; timeout := 10000 |}.

(** [{ ...this.options, ...options }] *)
Definition mergeOptions (base : IDiscoverConfig) (g : Given.t) : IDiscoverConfig :=
  {| debug := default (debug base) (Given.debug g);
     host := default (host base) (Given.host g);
     limit := default (limit base) (Given.limit g);
     multicastHost := default (multicastHost base) (Given.multicastHost g);
     port := default (port base) (Given.port g);
     timeout := default (timeout base) (Given.timeout g) |}.

(** ** The engine state *)

(** Where one call of [start] stands: waiting for the bind callback,
    waiting for the send callback, with its interval timer armed, or with
    nothing scheduled any more. *)
Inductive Stage := AwaitListening | AwaitSend | Polling | Idle.

(** The closure of one [start] call: its stage, the local [ts], and the
    promise it returned. *)
Record Run := { stage : Stage; ts : Z; promise : Promise ArrayRef Reason }.

(** What the engine writes out: [console.log] of an error, [logger.info]
    of a datagram; and, beside them, an exception that left a callback of
    the event loop uncaught. *)
Inductive LogEntry :=
  | ConsoleLog (e : JsError)
  | LoggerInfo (m : string)
  | Uncaught (e : JsError).

(** The [Discover] object together with what its calls left behind: the
    closures of the [start] calls, the promises of the [destroy] calls, the
    [deviceAdded] emissions (each with the listeners it reached) and the
    log lines. *)
Record Discover := {
  devices : list IDevice;
  options : IDiscoverConfig;
  client : option Dgram.Socket;
  listeners : list nat;
  runs : list Run;
  destroys : list (Promise unit JsError);
  emitted : list (IDevice * list nat);
  logged : list LogEntry
}.

Definition setDevices (x : list IDevice) (w : Discover) : Discover :=
  {| devices := x; options := options w; client := client w;
     listeners := listeners w; runs := runs w; destroys := destroys w;
     emitted := emitted w; logged := logged w |}.

Definition setClient (x : option Dgram.Socket) (w : Discover) : Discover :=
  {| devices := devices w; options := options w; client := x;
     listeners := listeners w; runs := runs w; destroys := destroys w;
     emitted := emitted w; logged := logged w |}.

Definition setListeners (x : list nat) (w : Discover) : Discover :=
  {| devices := devices w; options := options w; client := client w;
     listeners := x; runs := runs w; destroys := destroys w;
     emitted := emitted w; logged := logged w |}.

Definition setRuns (x : list Run) (w : Discover) : Discover :=
  {| devices := devices w; options := options w; client := client w;
     listeners := listeners w; runs := x; destroys := destroys w;
     emitted := emitted w; logged := logged w |}.

Definition setDestroys (x : list (Promise unit JsError)) (w : Discover) : Discover :=
  {| devices := devices w; options := options w; client := client w;
     listeners := listeners w; runs := runs w; destroys := x;
     emitted := emitted w; logged := logged w |}.

Definition setEmitted (x : list (IDevice * list nat)) (w : Discover) : Discover :=
  {| devices := devices w; options := options w; client := client w;
     listeners := listeners w; runs := runs w; destroys := destroys w;
     emitted := x; logged := logged w |}.

Definition addLog (x : LogEntry) (w : Discover) : Discover :=
  {| devices := devices w; options := options w; client := client w;
     listeners := listeners w; runs := runs w; destroys := destroys w;
     emitted := emitted w; logged := logged w ++ [x] |}.

Definition addLogs (xs : list LogEntry) (w : Discover) : Discover :=
  {| devices := devices w; options := options w; client := client w;
     listeners := listeners w; runs := runs w; destroys := destroys w;
     emitted := emitted w; logged := logged w ++ xs |}.

Definition setStage (x : Stage) (r : Run) : Run :=
  {| stage := x; ts := ts r; promise := promise r |}.

Definition setTs (x : Z) (r : Run) : Run :=
  {| stage := stage r; ts := x; promise := promise r |}.

Definition setPromise (x : Promise ArrayRef Reason) (r : Run) : Run :=
  {| stage := stage r; ts := ts r; promise := x |}.

(** What a caller holding a fulfilled promise of [start] sees. *)
Definition deref (w : Discover) (a : ArrayRef) : list IDevice :=
  match a with ThisDevices => devices w end.

(** The constructor. *)
Definition new_Discover (g : Given.t) : Discover :=
  {| devices := [];
     options := mergeOptions defaultOptions g;
     client := Some Dgram.createSocket;
     listeners := []; runs := []; destroys := []; emitted := []; logged := [] |}.

(** ** [start] and its poll timer *)

Definition CR : string := String (ascii_of_nat 13) EmptyString.
Definition LF : string := String (ascii_of_nat 10) EmptyString.
Definition DQ : string := String (ascii_of_nat 34) EmptyString.

Definition getMessage : string :=
  "M-SEARCH * HTTP/1.1" +:+ CR +:+ LF +:+
  "HOST: 239.255.255.250:1982" +:+ CR +:+ LF +:+
  "MAN: " +:+ DQ +:+ "ssdp:discover" +:+ DQ +:+ CR +:+ LF +:+
  "ST: wifi_bulb" +:+ CR +:+ LF.

(** String conversion of the tick counter in ["..." + ts]. *)
Definition numberToString (n : Z) : string := NilZero.string_of_int (Z.to_int n).

Definition interval : Z := 200.

Definition clearInterval (r : Run) : Run := setStage Idle r.

Definition timeoutText (t : Z) : string :=
  "No device found after timeout exceeded : " +:+ numberToString t.

(** First [if] of the timer callback. *)
Definition checkLimit (ds : list IDevice) (o : IDiscoverConfig) (r : Run) : Run :=
  if count ds >=? limit o
  then setPromise (resolve ThisDevices (promise r)) (clearInterval r)
  else r.

(** Second [if] of the timer callback. *)
Definition checkTimeout (ds : list IDevice) (o : IDiscoverConfig) (r : Run) : Run :=
  if (timeout o >? 0) && (timeout o <? ts r)
  then
    if count ds >? 0
    then setPromise (resolve ThisDevices (promise r)) (clearInterval r)
    else setPromise (reject (Text (timeoutText (ts r))) (promise r)) (clearInterval r)
  else r.

(** One firing of the interval timer. *)
Definition tick (ds : list IDevice) (o : IDiscoverConfig) (r : Run) : Run :=
  checkTimeout ds o (checkLimit ds o (setTs (ts r + interval) r)).

(** The timer fires only while it is armed. *)
Definition fire (ds : list IDevice) (o : IDiscoverConfig) (r : Run) : Run :=
  match stage r with
  | Polling => tick ds o r
  | _ => r
  end.

(** Consecutive firings, each seeing the device list of its moment. *)
Fixpoint poll (dss : list (list IDevice)) (o : IDiscoverConfig) (r : Run) : Run :=
  match dss with
  | [] => r
  | ds :: dss' => poll dss' o (fire ds o r)
  end.

Section Engine.

(** [Utils.parseDeviceInfo] is an outside collaborator: a function from
    the reply text to a device record, or nothing. *)
Variable parseDeviceInfo : string -> option IDevice.

Definition addRun (r : Run) (w : Discover) : Discover :=
  setRuns (runs w ++ [r]) w.

(** [start()]: the executor calls [client.bind]; an exception escaping
    the executor rejects the promise. *)
Definition start (w : Discover) : Discover :=
  match client w with
  | None => addRun {| stage := Idle; ts := 0; promise := Rejected (Err TypeError) |} w
  | Some s =>
      match Dgram.bind s with
      | inl e => addRun {| stage := Idle; ts := 0; promise := Rejected (Err e) |} w
      | inr s' =>
          addRun {| stage := AwaitListening; ts := 0; promise := Pending |}
                 (setClient (Some s') w)
      end
  end.

(** The bind callback of each waiting [start]: [setBroadcast(true)], then
    [send(getMessage(), port, multicastHost, cb)].  When [send] throws, the
    exception leaves the callback uncaught: nothing was sent, no send
    callback will come, and the promise is neither resolved nor
    rejected. *)
Fixpoint bindCallbacks (o : IDiscoverConfig) (rs : list Run) (s : Dgram.Socket)
  : list Run * Dgram.Socket * list LogEntry :=
  match rs with
  | [] => ([], s, [])
  | r :: rs' =>
      match stage r with
      | AwaitListening =>
          let probe := {| Dgram.payload := getMessage; Dgram.port := port o;
                          Dgram.address := multicastHost o |} in
          let s0 := Dgram.setBroadcast true s in
          match Dgram.send probe s0 with
          | inr s1 =>
              let '(rs'', s2, thrown) := bindCallbacks o rs' s1 in
              (setStage AwaitSend r :: rs'', s2, thrown)
          | inl e =>
              let '(rs'', s2, thrown) := bindCallbacks o rs' s0 in
              (setStage Idle r :: rs'', s2, Uncaught e :: thrown)
          end
      | _ =>
          let '(rs'', s2, thrown) := bindCallbacks o rs' s in
          (r :: rs'', s2, thrown)
      end
  end.

(** What the bind callback makes of a run, given what its [send] threw. *)
Definition afterListening (thrown : option JsError) (r : Run) : Run :=
  match stage r with
  | AwaitListening =>
      setStage (match thrown with Some _ => Idle | None => AwaitSend end) r
  | _ => r
  end.

(** The socket finished binding. *)
Definition onListening (w : Discover) : Discover :=
  match client w with
  | Some s =>
      match Dgram.handle s, Dgram.bindState s with
      | true, Dgram.BIND_STATE_BINDING =>
          let '(rs, s', thrown) :=
            bindCallbacks (options w) (runs w)
                          (Dgram.withBindState Dgram.BIND_STATE_BOUND s) in
          setRuns rs (setClient (Some s') (addLogs thrown w))
      | _, _ => w
      end
  | None => w
  end.

Definition dropBindCallback (r : Run) : Run :=
  match stage r with
  | AwaitListening => setStage Idle r
  | _ => r
  end.

(** The bind failed: the socket is unbound again and its error event
    removes the waiting bind callback, which then never runs. *)
Definition onBindError (w : Discover) : Discover :=
  match client w with
  | Some s =>
      match Dgram.handle s, Dgram.bindState s with
      | true, Dgram.BIND_STATE_BINDING =>
          setRuns (map dropBindCallback (runs w))
                  (setClient (Some (Dgram.withBindState Dgram.BIND_STATE_UNBOUND s)) w)
      | _, _ => w
      end
  | None => w
  end.

(** The send callback of run [i]. *)
Definition sendCallback (err : option JsError) (i : nat) (w : Discover) : Discover :=
  match runs w !! i with
  | Some r =>
      match stage r with
      | AwaitSend =>
          match err with
          | Some e =>
              setRuns (<[i := setPromise (reject (Err e) (promise r)) (setStage Idle r)]> (runs w))
                      (addLog (ConsoleLog e) w)
          | None =>
              setRuns (<[i := setStage Polling (setTs 0 r)]> (runs w)) w
          end
      | _ => w
      end
  | None => w
  end.

(** The interval timer of run [i] fires. *)
Definition onTick (i : nat) (w : Discover) : Discover :=
  match runs w !! i with
  | Some r => setRuns (<[i := fire (devices w) (options w) r]> (runs w)) w
  | None => w
  end.

(** [this.emit("deviceAdded", device)] *)
Definition emit (device : IDevice) (w : Discover) : Discover :=
  setEmitted (emitted w ++ [(device, listeners w)]) w.

(** [onSocketMessage]; the constructor always leaves a logger in place,
    so the logging guard is the [debug] option alone. *)
Definition onSocketMessage (message : string) (w : Discover) : Discover :=
  let w1 := if debug (options w) then addLog (LoggerInfo message) w else w in
  match parseDeviceInfo message with
  | Some device => emit device (setDevices (fst (addDevice (devices w1) device)) w1)
  | None => w1
  end.

(** A datagram arrives at the socket. *)
Definition onDatagram (message : string) (w : Discover) : Discover :=
  match client w with
  | Some s => if Dgram.receiving s then onSocketMessage message w else w
  | None => w
  end.

(** [destroy()] *)
Definition destroy (w : Discover) : Discover :=
  match client w with
  | None => setDestroys (destroys w ++ [Fulfilled tt]) w
  | Some s =>
      let me := length (destroys w) in
      let w1 := setListeners [] w in
      let '(s', thrown) := Dgram.close me s in
      let p := match thrown with Some e => Rejected e | None => Pending end in
      setDestroys (destroys w1 ++ [p]) (setClient (Some s') w1)
  end.

Definition resolveAt (ps : list (Promise unit JsError)) (i : nat)
  : list (Promise unit JsError) :=
  match ps !! i with
  | Some p => <[i := resolve tt p]> ps
  | None => ps
  end.

(** The close event of the socket calls its listeners. *)
Definition onClose (w : Discover) : Discover :=
  match client w with
  | Some s =>
      if negb (Dgram.handle s) && negb (Dgram.closeEmitted s)
      then setDestroys (foldl resolveAt (destroys w) (Dgram.closeListeners s))
                       (setClient (Some (Dgram.emitClose s)) w)
      else w
  | None => w
  end.

(** What can happen to an engine: calls from its owner, and callbacks
    from the event loop. *)
Inductive Event :=
  | CallStart
  | CallDestroy
  | Subscribe (l : nat)
  | Listening
  | BindFailed
  | SendDone (i : nat) (err : option JsError)
  | Tick (i : nat)
  | Message (message : string)
  | CloseEvent.

Definition step (w : Discover) (e : Event) : Discover :=
  match e with
  | CallStart => start w
  | CallDestroy => destroy w
  | Subscribe l => setListeners (listeners w ++ [l]) w   (* on("deviceAdded", l) *)
  | Listening => onListening w
  | BindFailed => onBindError w
  | SendDone i err => sendCallback err i w
  | Tick i => onTick i w
  | Message m => onDatagram m w
  | CloseEvent => onClose w
  end.

Definition exec (es : list Event) (w : Discover) : Discover := foldl step w es.

End Engine.

(** What a run that was polling can look like later when no timeout is
    set: still polling, or fulfilled once the limit was reached. *)
Definition pollingOrLimitReached (w : Discover) (r : Run) : Prop :=
  (stage r = Polling /\ promise r = Pending) \/
  (stage r = Idle /\ promise r = Fulfilled ThisDevices /\
   limit (options w) <= count (devices w)).

(** A socket that [bind] refuses: closed, or binding or bound already. *)
Definition taken (s : Dgram.Socket) : Prop :=
  Dgram.handle s = false \/ Dgram.isUnbound s = false.

(** ** Sample data *)

Definition bulbA : IDevice :=
  {| id := "abc"; location := "yeelight://192.168.1.10:55443"; model := "color" |}.

(** The same bulb answering again after it moved to another address. *)
Definition bulbA' : IDevice :=
  {| id := "abc"; location := "yeelight://192.168.1.23:55443"; model := "color" |}.

Definition bulbB : IDevice :=
  {| id := "def"; location := "yeelight://192.168.1.11:55443"; model := "mono" |}.

(** A stand-in parser: the empty text is no device, any other text is a
    device whose id is the text. *)
Definition sampleParser (message : string) : option IDevice :=
  if String.eqb message EmptyString then None
  else Some {| id := message; location := "yeelight://192.168.1.10:55443";
               model := "color" |}.

Definition sampleOptions (l t : Z) : Given.t :=
  {| Given.debug := Some false; Given.host := None; Given.limit := Some l;
     Given.multicastHost := None; Given.port := None; Given.timeout := Some t |}.

(** A run whose timer has just been armed. *)
Definition armed : Run := {| stage := Polling; ts := 0; promise := Pending |}.

(** ** Derived notions *)

(** The device list after a sequence of upserts (the handler keeps the list
    and drops the flag). *)
Definition upsertAll (devices : list IDevice) (incoming : list IDevice) : list IDevice :=
  foldl (fun acc device => fst (addDevice acc device)) devices incoming.

(** The datagram the bind callback hands to [send]. *)
Definition probeOf (o : IDiscoverConfig) : Dgram.Datagram :=
  {| Dgram.payload := getMessage; Dgram.port := port o;
     Dgram.address := multicastHost o |}.

(** How many [start] calls are waiting for their bind callback. *)
Fixpoint awaitingBind (rs : list Run) : nat :=
  match rs with
  | [] => 0%nat
  | r :: rs' =>
      match stage r with
      | AwaitListening => S (awaitingBind rs')
      | _ => awaitingBind rs'
      end
  end.

(** What holds of every run of an engine built by the constructor: the
    counter is a multiple of the interval; a settled promise has its timer
    cleared; a rejection text was produced with the timeout exceeded and
    carries the counter; a fulfilment happened after at least one tick,
    with the limit reached or a non-empty device list. *)
Definition runOk (w : Discover) (r : Run) : Prop :=
  (exists k, 0 <= k /\ ts r = interval * k) /\
  (settled (promise r) = true -> stage r = Idle) /\
  (forall s, promise r = Rejected (Text s) ->
     0 < timeout (options w) /\ timeout (options w) < ts r /\
     s = timeoutText (ts r)) /\
  (forall a, promise r = Fulfilled a ->
     0 < ts r /\
     (limit (options w) <= count (devices w) \/ 0 < count (devices w))).

(** The devices announced so far through [deviceAdded]. *)
Definition announced (w : Discover) : list IDevice := fst <$> emitted w.

(** How the socket, the waiting bind callbacks and the datagrams sent go
    together: nothing is sent before the socket is bound, at most one
    [start] waits for the bind, and a bound socket has sent nothing or the
    one probe, with the broadcast flag set. *)
Definition probeInv (w : Discover) : Prop :=
  exists s, client w = Some s /\
    match Dgram.bindState s with
    | Dgram.BIND_STATE_UNBOUND =>
        Dgram.sent s = [] /\ awaitingBind (runs w) = 0%nat
    | Dgram.BIND_STATE_BINDING =>
        Dgram.sent s = [] /\ (awaitingBind (runs w) <= 1)%nat
    | Dgram.BIND_STATE_BOUND =>
        awaitingBind (runs w) = 0%nat /\
        (Dgram.sent s = [] \/
         (Dgram.sent s = [probeOf (options w)] /\ Dgram.broadcast s = true))
    end.

(** What the send callback makes of a run. *)
Definition sendRun (err : option JsError) (r : Run) : Run :=
  match stage r with
  | AwaitSend =>
      match err with
      | Some e => setPromise (reject (Err e) (promise r)) (setStage Idle r)
      | None => setStage Polling (setTs 0 r)
      end
  | _ => r
  end.

(** As long as [destroy] was not called: the socket is open, and either it
    is bound, or no [start] has got past [bind] yet, so that every run is
    waiting for the bind or has nothing scheduled, with its promise pending
    or turned away by [bind] itself. *)
Definition bindInv (w : Discover) : Prop :=
  exists s, client w = Some s /\ Dgram.handle s = true /\
    (Dgram.bindState s = Dgram.BIND_STATE_BOUND \/
     Forall (fun r =>
               (stage r = Idle \/ stage r = AwaitListening) /\
               (promise r = Pending \/
                promise r = Rejected (Err ERR_SOCKET_ALREADY_BOUND)))
            (runs w)).

(** Two lists of runs with the same first [n] runs, and as many runs
    waiting for the bind callback. *)
Definition runsAgree (n : nat) (rsA rsB : list Run) : Prop :=
  (forall i, (i < n)%nat -> rsA !! i = rsB !! i) /\
  (n <= length rsA)%nat /\ (n <= length rsB)%nat /\
  awaitingBind rsA = awaitingBind rsB.

(** Two engines that agree on everything but the log and the runs from
    index [n] on: same device list, options, socket, listeners, [destroy]
    promises and emissions, and the same first [n] runs. *)
Definition agreeBelow (n : nat) (wA wB : Discover) : Prop :=
  devices wA = devices wB /\
  options wA = options wB /\
  client wA = client wB /\
  listeners wA = listeners wB /\
  destroys wA = destroys wB /\
  emitted wA = emitted wB /\
  runsAgree n (runs wA) (runs wB).

(** * Properties *)

(** ** The device list *)

Section Registry.

Implicit Types (d : IDevice) (ds : list IDevice) (key : string).

Lemma findIndexFrom_shift i key ds :
  findIndexFrom i key ds = -1 \/
  (i <= findIndexFrom i key ds < i + Z.of_nat (length ds)).
Proof.
  revert i. induction ds as [|x xs IH]; intros i; cbn [findIndexFrom length].
  - by left.
  - destruct (String.eqb (id x) key).
    + right. lia.
    + destruct (IH (i + 1)) as [->|H]; [by left|right; lia].
Qed.

Lemma findIndexFrom_offset i key ds :
  0 <= i ->
  findIndexFrom i key ds =
    (if findIndexFrom 0 key ds <? 0 then -1 else i + findIndexFrom 0 key ds).
Proof.
  revert i. induction ds as [|x xs IH]; intros i Hi; cbn [findIndexFrom].
  - reflexivity.
  - destruct (String.eqb (id x) key).
    + change (0 <? 0) with false. cbn. lia.
    + rewrite (IH (i + 1)) by lia. rewrite (IH (0 + 1)) by lia.
      destruct (findIndexFrom 0 key xs <? 0) eqn:E; [reflexivity|].
      apply Z.ltb_ge in E.
      replace (0 + 1 + findIndexFrom 0 key xs <? 0) with false
        by (symmetry; apply Z.ltb_ge; lia).
      lia.
Qed.

(** [findIndex] answers -1 exactly when no record carries the key. *)
Lemma findIndex_absent key ds :
  findIndex key ds = -1 <-> key ∉ ids ds.
Proof.
  unfold findIndex, ids. induction ds as [|x xs IH]; cbn [findIndexFrom map].
  - split; [intros _; apply not_elem_of_nil | done].
  - destruct (String.eqb_spec (id x) key) as [E|E].
    + split; [lia|]. intros H. exfalso. apply H. rewrite E. apply list_elem_of_here.
    + rewrite findIndexFrom_offset by lia.
      destruct (findIndexFrom_shift 0 key xs) as [Hm|Hr].
      * rewrite Hm. cbn. split; [|done]. intros _.
        rewrite not_elem_of_cons. split; [congruence|]. by apply IH.
      * replace (findIndexFrom 0 key xs <? 0) with false
          by (symmetry; apply Z.ltb_ge; lia).
        split; [lia|]. intros H. apply not_elem_of_cons in H as [_ H].
        apply IH in H. lia.
Qed.

(** A non-negative answer points at a record carrying the key. *)
Lemma findIndex_found key ds k :
  findIndex key ds = k -> 0 <= k ->
  ids ds !! Z.to_nat k = Some key.
Proof.
  unfold findIndex, ids. revert k.
  induction ds as [|x xs IH]; intros k; cbn [findIndexFrom map].
  - lia.
  - destruct (String.eqb_spec (id x) key) as [E|E].
    + intros <- _. cbn. by rewrite E.
    + rewrite findIndexFrom_offset by lia.
      destruct (findIndexFrom 0 key xs <? 0) eqn:F; [lia|].
      apply Z.ltb_ge in F. intros <- _.
      replace (Z.to_nat (0 + 1 + findIndexFrom 0 key xs))
        with (S (Z.to_nat (findIndexFrom 0 key xs))) by lia.
      cbn. by apply IH.
Qed.

(** The record found first is the one at the index [findIndex] gives:
    writing there makes [lookupById] return what was written. *)
Lemma lookupById_insert_found d ds k :
  findIndex (id d) ds = k -> 0 <= k ->
  lookupById (id d) (<[Z.to_nat k := d]> ds) = Some d.
Proof.
  unfold findIndex, lookupById. revert k.
  induction ds as [|x xs IH]; intros k; cbn [findIndexFrom].
  - lia.
  - destruct (String.eqb_spec (id x) (id d)) as [E|E].
    + intros <- _. change (Z.to_nat 0) with 0%nat. cbn.
      by rewrite String.eqb_refl.
    + rewrite findIndexFrom_offset by lia.
      destruct (findIndexFrom 0 (id d) xs <? 0) eqn:F; [lia|].
      apply Z.ltb_ge in F. intros <- _.
      replace (Z.to_nat (0 + 1 + findIndexFrom 0 (id d) xs))
        with (S (Z.to_nat (findIndexFrom 0 (id d) xs))) by lia.
      cbn. destruct (String.eqb_spec (id x) (id d)); [done|].
      by apply IH.
Qed.

(** A key never seen is appended. *)
Lemma addDevice_fresh d ds :
  id d ∉ ids ds -> addDevice ds d = (ds ++ [d], 1).
Proof.
  intros H. apply findIndex_absent in H. unfold addDevice. by rewrite H.
Qed.

(** A key found at a position after the first is overwritten in place. *)
Lemma addDevice_replace d ds k :
  findIndex (id d) ds = k -> 0 < k ->
  addDevice ds d = (<[Z.to_nat k := d]> ds, 0).
Proof.
  intros H Hk. unfold addDevice. rewrite H.
  by replace (k <=? 0) with false by (symmetry; apply Z.leb_gt; lia).
Qed.

(** Away from the first position the upsert is last-write-wins: same
    count, and the key now yields the new record. *)
Lemma addDevice_replace_wins d ds k :
  findIndex (id d) ds = k -> 0 < k ->
  count (fst (addDevice ds d)) = count ds /\
  lookupById (id d) (fst (addDevice ds d)) = Some d /\
  snd (addDevice ds d) = 0.
Proof.
  intros H Hk. rewrite (addDevice_replace d ds k H Hk). cbn [fst snd].
  unfold count. rewrite length_insert. split; [done|]. split; [|done].
  apply lookupById_insert_found; [done|lia].
Qed.

(** Identifiers stay unique as long as the incoming key is not the one of
    the first record. *)
Lemma addDevice_keeps_unique d ds :
  NoDup (ids ds) ->
  head (ids ds) <> Some (id d) ->
  NoDup (ids (fst (addDevice ds d))).
Proof.
  intros Hnd Hhd. unfold addDevice.
  destruct (Z.leb_spec (findIndex (id d) ds) 0) as [Hle|Hgt]; cbn [fst].
  - assert (findIndex (id d) ds = -1) as Habs.
    { destruct (findIndexFrom_shift 0 (id d) ds) as [H|H]; [exact H|].
      fold (findIndex (id d) ds) in H.
      assert (findIndex (id d) ds = 0) as H0 by lia.
      apply findIndex_found in H0; [|lia].
      destruct ds as [|x xs]; [done|]. change (Z.to_nat 0) with 0%nat in H0.
      cbn in H0, Hhd. congruence. }
    apply findIndex_absent in Habs.
    unfold ids. rewrite map_app. cbn [map].
    apply NoDup_app. split; [exact Hnd|]. split.
    + intros x Hx Hx'. apply list_elem_of_singleton in Hx'. subst x. by apply Habs.
    + apply NoDup_singleton.
  - pose proof (findIndex_found (id d) ds _ eq_refl ltac:(lia)) as Hk.
    unfold ids in *. change map with (@fmap list _) in *.
    rewrite list_fmap_insert. by rewrite list_insert_id.
Qed.

End Registry.

(** C1. The identifier-uniqueness invariant is broken by the upsert: when
    the incoming identifier is the one of the record at position 0, the
    index found is 0, the test [existDevice <= 0] sends it to [push], the
    flag returned is 1, and the list then holds that identifier twice. *)
Theorem addDevice_duplicates_first_record (d0 d : IDevice) (ds : list IDevice) :
  id d0 = id d ->
  findIndex (id d) (d0 :: ds) = 0 /\
  addDevice (d0 :: ds) d = ((d0 :: ds) ++ [d], 1) /\
  ~ NoDup (ids (fst (addDevice (d0 :: ds) d))).
Proof.
  intros E.
  assert (findIndex (id d) (d0 :: ds) = 0) as H0.
  { unfold findIndex. cbn [findIndexFrom]. rewrite E. by rewrite String.eqb_refl. }
  assert (addDevice (d0 :: ds) d = ((d0 :: ds) ++ [d], 1)) as H1.
  { unfold addDevice. by rewrite H0. }
  split; [exact H0|]. split; [exact H1|].
  rewrite H1. cbn [fst]. unfold ids. rewrite map_app. cbn [map app].
  intros Hnd. apply NoDup_cons in Hnd as [Hnotin _].
  apply Hnotin. rewrite E. apply elem_of_app. right. apply list_elem_of_singleton. reflexivity.
Qed.

Lemma addDevice_duplicates_first_record_witness :
  findIndex (id bulbA') [bulbA] = 0 /\
  addDevice [bulbA] bulbA' = ([bulbA; bulbA'], 1) /\
  ~ NoDup (ids (fst (addDevice [bulbA] bulbA'))).
Proof. apply (addDevice_duplicates_first_record bulbA bulbA' []). reflexivity. Defined.

(** C2. Last-write-wins fails for the first-seen record: a reply carrying
    the identifier of the record at position 0 makes [count()] grow by one,
    is reported as newly added, and a lookup by that identifier still
    yields the old record. *)
Theorem addDevice_first_record_not_replaced (d0 d : IDevice) (ds : list IDevice) :
  id d0 = id d ->
  count (fst (addDevice (d0 :: ds) d)) = count (d0 :: ds) + 1 /\
  lookupById (id d) (fst (addDevice (d0 :: ds) d)) = Some d0 /\
  snd (addDevice (d0 :: ds) d) = 1.
Proof.
  intros E. unfold addDevice, findIndex. cbn [findIndexFrom].
  rewrite E, String.eqb_refl. cbn [Z.leb Z.compare fst snd].
  split; [|split; [|reflexivity]].
  - unfold count. rewrite length_app. cbn [length]. lia.
  - unfold lookupById. cbn [app List.find]. by rewrite E, String.eqb_refl.
Qed.

Lemma addDevice_first_record_not_replaced_witness :
  count (fst (addDevice [bulbA] bulbA')) = count [bulbA] + 1 /\
  lookupById (id bulbA') (fst (addDevice [bulbA] bulbA')) = Some bulbA /\
  snd (addDevice [bulbA] bulbA') = 1.
Proof. apply (addDevice_first_record_not_replaced bulbA bulbA' []). reflexivity. Defined.

(** The same seen from the socket: one bulb answering the probe twice is
    listed twice, and announced twice. *)
Lemma same_reply_twice_is_listed_twice :
  let w := exec sampleParser
                [CallStart; Listening; SendDone 0%nat None;
                 Message "abc"; Message "abc"]
                (new_Discover (sampleOptions 2 1000)) in
  ids (devices w) = ["abc"; "abc"] /\ length (emitted w) = 2%nat.
Proof. vm_compute. split; reflexivity. Qed.

(** ** The poll timer *)

Section PollTimer.

Implicit Types (ds : list IDevice) (o : IDiscoverConfig) (r : Run).

Lemma checkLimit_reached ds o r :
  limit o <= count ds ->
  checkLimit ds o r = setPromise (resolve ThisDevices (promise r)) (clearInterval r).
Proof.
  intros H. unfold checkLimit.
  by replace (count ds >=? limit o) with true by (symmetry; apply Z.geb_le; lia).
Qed.

Lemma checkLimit_below ds o r :
  count ds < limit o -> checkLimit ds o r = r.
Proof.
  intros H. unfold checkLimit.
  destruct (count ds >=? limit o) eqn:E; [|done].
  apply Z.geb_le in E. lia.
Qed.

(** The second [if] cannot change a promise that is already settled. *)
Lemma checkTimeout_settled ds o r :
  settled (promise r) = true -> promise (checkTimeout ds o r) = promise r.
Proof.
  intros H. unfold checkTimeout.
  destruct ((timeout o >? 0) && (timeout o <? ts r)); [|done].
  destruct (count ds >? 0); cbn; by destruct (promise r).
Qed.

Lemma checkTimeout_quiet ds o r :
  timeout o <= 0 \/ ts r <= timeout o -> checkTimeout ds o r = r.
Proof.
  intros H. unfold checkTimeout.
  destruct (timeout o >? 0) eqn:E1; [|done].
  destruct (timeout o <? ts r) eqn:E2; [|done].
  apply Z.gtb_lt in E1. apply Z.ltb_lt in E2. lia.
Qed.

Lemma checkTimeout_expired ds o r :
  0 < timeout o -> timeout o < ts r ->
  checkTimeout ds o r =
    if count ds >? 0
    then setPromise (resolve ThisDevices (promise r)) (clearInterval r)
    else setPromise (reject (Text (timeoutText (ts r))) (promise r)) (clearInterval r).
Proof.
  intros H1 H2. unfold checkTimeout.
  replace (timeout o >? 0) with true by (symmetry; apply Z.gtb_lt; lia).
  by replace (timeout o <? ts r) with true by (symmetry; apply Z.ltb_lt; lia).
Qed.

(** Whenever the limit is reached the tick fulfils a pending promise and
    stops the timer, whatever the timeout says. *)
Lemma tick_limit_reached ds o r :
  promise r = Pending -> limit o <= count ds ->
  promise (tick ds o r) = Fulfilled ThisDevices /\ stage (tick ds o r) = Idle.
Proof.
  intros Hp Hl. unfold tick. rewrite checkLimit_reached by done.
  cbn [setTs promise]. rewrite Hp. cbn [resolve]. split.
  - by rewrite checkTimeout_settled.
  - unfold checkTimeout.
    destruct ((timeout o >? 0) && _); [|done]. by destruct (count ds >? 0).
Qed.

(** A tick that finds the limit unreached and the timeout not exceeded
    only advances the counter. *)
Lemma tick_waits ds o r :
  count ds < limit o ->
  timeout o <= 0 \/ ts r + interval <= timeout o ->
  tick ds o r = setTs (ts r + interval) r.
Proof.
  intros Hl Ht. unfold tick. rewrite checkLimit_below by done.
  by apply checkTimeout_quiet.
Qed.

Lemma poll_waits dss o r :
  stage r = Polling ->
  Forall (fun ds => count ds < limit o) dss ->
  timeout o <= 0 \/ ts r + interval * Z.of_nat (length dss) <= timeout o ->
  poll dss o r = setTs (ts r + interval * Z.of_nat (length dss)) r.
Proof.
  revert r. induction dss as [|ds dss IH]; intros r Hs Hall Ht.
  - cbn. destruct r as [s t p]. unfold setTs. cbn. f_equal. lia.
  - apply Forall_cons in Hall as [Hd Hall]. cbn [poll length] in *.
    unfold fire. rewrite Hs.
    rewrite tick_waits; [|done|unfold interval in *; lia].
    rewrite IH; [|done|done|cbn [setTs ts]; unfold interval in *; lia].
    unfold setTs. cbn. f_equal. unfold interval. lia.
Qed.

End PollTimer.

(** C3. With [limit >= 1] and [timeout > 0], on a tick where the limit is
    reached and the timeout has run out as well, the first [if] of the
    timer callback fulfils the promise with the device list and stops the
    timer; the second [if] then runs on a settled promise and changes
    nothing: the run succeeds through the limit branch. *)
Theorem limit_wins_over_timeout (ds : list IDevice) (o : IDiscoverConfig) (r : Run) :
  1 <= limit o -> 0 < timeout o ->
  stage r = Polling -> promise r = Pending ->
  limit o <= count ds ->
  timeout o <= ts r + interval ->
  let afterLimit := checkLimit ds o (setTs (ts r + interval) r) in
  promise afterLimit = Fulfilled ThisDevices /\
  stage afterLimit = Idle /\
  fire ds o r = checkTimeout ds o afterLimit /\
  promise (fire ds o r) = Fulfilled ThisDevices /\
  stage (fire ds o r) = Idle.
Proof.
  intros _ _ Hs Hp Hl _. cbn zeta.
  rewrite checkLimit_reached by done. cbn [setTs promise stage clearInterval setStage setPromise].
  rewrite Hp. cbn [resolve].
  split; [done|]. split; [done|].
  unfold fire. rewrite Hs. split.
  - unfold tick. rewrite checkLimit_reached by done.
    cbn [setTs promise stage clearInterval setStage setPromise]. by rewrite Hp.
  - by apply tick_limit_reached.
Qed.

Lemma limit_wins_over_timeout_witness :
  let o := mergeOptions defaultOptions (sampleOptions 1 200) in
  let r := {| stage := Polling; ts := 200; promise := Pending |} in
  let afterLimit := checkLimit [bulbA] o (setTs (ts r + interval) r) in
  promise afterLimit = Fulfilled ThisDevices /\
  stage afterLimit = Idle /\
  fire [bulbA] o r = checkTimeout [bulbA] o afterLimit /\
  promise (fire [bulbA] o r) = Fulfilled ThisDevices /\
  stage (fire [bulbA] o r) = Idle.
Proof.
  apply (limit_wins_over_timeout [bulbA]
           (mergeOptions defaultOptions (sampleOptions 1 200))
           {| stage := Polling; ts := 200; promise := Pending |});
    vm_compute; first [reflexivity | discriminate].
Defined.

(** C4, as stated, does not hold: with [timeout = 200] the first tick has
    counted 200 ms, so its elapsed value satisfies [elapsed >= timeout],
    the limit is not reached, and yet the run goes on: the promise is
    pending and the timer still armed. *)
Lemma tick_at_timeout_keeps_polling :
  let o := mergeOptions defaultOptions (sampleOptions 1 200) in
  let r' := fire [] o armed in
  ts r' = 200 /\ timeout o <= ts r' /\ count [] < limit o /\
  promise r' = Pending /\ stage r' = Polling.
Proof. vm_compute. repeat split; congruence. Qed.

(** The same with the default configuration: after fifty ticks the counter
    stands at the default timeout of 10000 and the run is still pending;
    the fifty-first tick rejects it, reporting 10200. *)
Lemma default_timeout_needs_one_more_tick :
  let o := mergeOptions defaultOptions Given.none in
  let r50 := poll (replicate 50 []) o armed in
  ts r50 = timeout o /\ promise r50 = Pending /\ stage r50 = Polling /\
  promise (fire [] o r50) =
    Rejected (Text "No device found after timeout exceeded : 10200").
Proof. vm_compute. repeat split; congruence. Qed.

(** C4, amended. With [timeout > 0] and the limit never reached, the run
    is still pending after every tick whose counter is at most [timeout],
    and ends on the first tick whose counter is strictly greater: fulfilled
    with the device list when it is not empty, else rejected with the text
    that carries the counter, a value greater than [timeout]. *)
Theorem timeout_ends_run_on_first_exceeding_tick
    (dss : list (list IDevice)) (ds : list IDevice) (o : IDiscoverConfig) (r : Run) :
  0 < timeout o ->
  stage r = Polling -> promise r = Pending -> ts r = 0 ->
  Forall (fun d => count d < limit o) dss -> count ds < limit o ->
  interval * Z.of_nat (length dss) <= timeout o ->
  timeout o < interval * (Z.of_nat (length dss) + 1) ->
  let before := poll dss o r in
  let r' := fire ds o before in
  (stage before = Polling /\ promise before = Pending /\
   ts before = interval * Z.of_nat (length dss)) /\
  stage r' = Idle /\
  ts r' = interval * (Z.of_nat (length dss) + 1) /\
  timeout o < ts r' /\
  promise r' = (if count ds >? 0 then Fulfilled ThisDevices
                else Rejected (Text (timeoutText (ts r')))).
Proof.
  intros Ht Hs Hp H0 Hall Hd Hle Hlt. cbn zeta.
  rewrite poll_waits; [|done|done|right; lia].
  rewrite H0. cbn [setTs stage promise ts].
  split; [by rewrite Hs, Hp|].
  unfold fire. cbn [stage setTs]. rewrite Hs.
  unfold tick. rewrite checkLimit_below by done.
  cbn [setTs ts]. rewrite checkTimeout_expired; cbn [setTs ts]; [|done|lia].
  cbn [setTs promise]. rewrite Hp.
  replace (0 + interval * Z.of_nat (length dss) + interval)
    with (interval * (Z.of_nat (length dss) + 1)) by lia.
  destruct (count ds >? 0);
    cbn [setPromise clearInterval setStage setTs stage ts promise resolve reject];
    repeat split; lia.
Qed.

Lemma timeout_ends_run_on_first_exceeding_tick_witness :
  let o := mergeOptions defaultOptions (sampleOptions 2 500) in
  let before := poll [[]; [bulbA]] o armed in
  let r' := fire [bulbA] o before in
  (stage before = Polling /\ promise before = Pending /\
   ts before = interval * Z.of_nat (length [[]; [bulbA]])) /\
  stage r' = Idle /\
  ts r' = interval * (Z.of_nat (length [[]; [bulbA]]) + 1) /\
  timeout o < ts r' /\
  promise r' = (if count [bulbA] >? 0 then Fulfilled ThisDevices
                else Rejected (Text (timeoutText (ts r')))).
Proof.
  apply (timeout_ends_run_on_first_exceeding_tick [[]; [bulbA]] [bulbA]
           (mergeOptions defaultOptions (sampleOptions 2 500)) armed);
    try reflexivity; try (vm_compute; congruence).
  repeat constructor.
Defined.

(** ** The event loop *)

Section EventLoop.

Variable parse : string -> option IDevice.

Implicit Types (w : Discover) (e : Event) (es : list Event) (r : Run)
  (s : Dgram.Socket).

Lemma exec_app es1 es2 w :
  exec parse (es1 ++ es2) w = exec parse es2 (exec parse es1 w).
Proof. unfold exec. apply foldl_app. Qed.

Lemma exec_cons e es w :
  exec parse (e :: es) w = exec parse es (step parse w e).
Proof. reflexivity. Qed.

(** *** What the bind callbacks touch *)

Lemma send_accepted d s s1 :
  Dgram.send d s = inr s1 ->
  Dgram.sendError d s = None /\
  Dgram.handle s1 = Dgram.handle s /\
  Dgram.bindState s1 = Dgram.bindState s /\
  Dgram.closeListeners s1 = Dgram.closeListeners s /\
  Dgram.closeEmitted s1 = Dgram.closeEmitted s /\
  Dgram.broadcast s1 = Dgram.broadcast s /\
  Dgram.sent s1 = Dgram.sent s ++ [d].
Proof.
  unfold Dgram.send. destruct (Dgram.sendError d s); [done|].
  intros [= <-]. by cbn.
Qed.

Lemma send_thrown d s (err : JsError) :
  Dgram.send d s = inl err -> Dgram.sendError d s = Some err.
Proof. unfold Dgram.send. destruct (Dgram.sendError d s); [congruence|done]. Qed.

(** Whether [send] throws depends on the port and on the socket being
    open, not on what the socket has sent or on its flags. *)
Lemma sendError_handle d s' s :
  Dgram.handle s' = Dgram.handle s -> Dgram.sendError d s' = Dgram.sendError d s.
Proof. intros H. unfold Dgram.sendError, Dgram.healthCheck. by rewrite H. Qed.

Lemma bindCallbacks_socket o rs s :
  Dgram.handle (bindCallbacks o rs s).1.2 = Dgram.handle s /\
  Dgram.bindState (bindCallbacks o rs s).1.2 = Dgram.bindState s /\
  Dgram.closeListeners (bindCallbacks o rs s).1.2 = Dgram.closeListeners s /\
  Dgram.closeEmitted (bindCallbacks o rs s).1.2 = Dgram.closeEmitted s.
Proof.
  revert s. induction rs as [|r rs IH]; intros s; cbn [bindCallbacks].
  - done.
  - destruct (stage r).
    + fold (probeOf o).
      destruct (Dgram.send (probeOf o) (Dgram.setBroadcast true s)) as [e|s1] eqn:Es.
      * specialize (IH (Dgram.setBroadcast true s)).
        by destruct (bindCallbacks o rs _) as [[rs' s2] th].
      * apply send_accepted in Es as (_ & Hh & Hb & Hl & Hc & _).
        specialize (IH s1). destruct (bindCallbacks o rs s1) as [[rs' s2] th].
        cbn [fst snd] in *. destruct IH as (-> & -> & -> & ->). by cbn in *.
    + specialize (IH s). by destruct (bindCallbacks o rs s) as [[rs' s2] th].
    + specialize (IH s). by destruct (bindCallbacks o rs s) as [[rs' s2] th].
    + specialize (IH s). by destruct (bindCallbacks o rs s) as [[rs' s2] th].
Qed.

Lemma bindCallbacks_runs o rs s :
  (bindCallbacks o rs s).1.1 =
    map (afterListening (Dgram.sendError (probeOf o) s)) rs.
Proof.
  revert s. induction rs as [|r rs IH]; intros s; cbn [bindCallbacks map].
  - done.
  - unfold afterListening at 1. destruct (stage r).
    + fold (probeOf o).
      destruct (Dgram.send (probeOf o) (Dgram.setBroadcast true s)) as [e|s1] eqn:Es.
      * apply send_thrown in Es.
        rewrite (sendError_handle _ _ s) in Es by done. rewrite Es.
        specialize (IH (Dgram.setBroadcast true s)).
        rewrite (sendError_handle _ _ s) in IH by done. rewrite Es in IH.
        destruct (bindCallbacks o rs _) as [[rs' s2] th]. cbn [fst] in *.
        by rewrite IH.
      * apply send_accepted in Es as (Hn & Hh & _).
        rewrite (sendError_handle _ _ s) in Hn by done. rewrite Hn.
        specialize (IH s1).
        rewrite (sendError_handle _ s1 s) in IH by done. rewrite Hn in IH.
        destruct (bindCallbacks o rs s1) as [[rs' s2] th]. cbn [fst] in *.
        by rewrite IH.
    + specialize (IH s). destruct (bindCallbacks o rs s) as [[rs' s2] th].
      cbn [fst] in *. by rewrite IH.
    + specialize (IH s). destruct (bindCallbacks o rs s) as [[rs' s2] th].
      cbn [fst] in *. by rewrite IH.
    + specialize (IH s). destruct (bindCallbacks o rs s) as [[rs' s2] th].
      cbn [fst] in *. by rewrite IH.
Qed.

(** *** Frame properties of a step *)

Lemma step_options w e : options (step parse w e) = options w.
Proof.
  destruct e as [| |l| | |i err|i|message|]; cbn [step]; try done.
  - unfold start. destruct (client w) as [s|]; [|done].
    by destruct (Dgram.bind s).
  - unfold destroy. destruct (client w) as [s|]; [|done].
    by destruct (Dgram.close _ s).
  - unfold onListening. destruct (client w) as [s|]; [|done].
    destruct (Dgram.handle s), (Dgram.bindState s); try done.
    by destruct (bindCallbacks _ _ _) as [[? ?] ?].
  - unfold onBindError. destruct (client w) as [s|]; [|done].
    by destruct (Dgram.handle s), (Dgram.bindState s).
  - unfold sendCallback. destruct (runs w !! i) as [r|]; [|done].
    destruct (stage r); try done. by destruct err.
  - unfold onTick. by destruct (runs w !! i).
  - unfold onDatagram, onSocketMessage. destruct (client w) as [s|]; [|done].
    destruct (Dgram.receiving s); [|done].
    by destruct (parse message), (debug (options w)).
  - unfold onClose. destruct (client w) as [s|]; [|done].
    by destruct (negb (Dgram.handle s) && negb (Dgram.closeEmitted s)).
Qed.

Lemma exec_options es w : options (exec parse es w) = options w.
Proof.
  revert w. induction es as [|e es IH]; intros w; [done|].
  rewrite exec_cons, IH. apply step_options.
Qed.

Lemma addDevice_count ds d : count ds <= count (fst (addDevice ds d)).
Proof.
  unfold addDevice, count. destruct (findIndex (id d) ds <=? 0); cbn [fst].
  - rewrite length_app. cbn [length]. lia.
  - rewrite length_insert. lia.
Qed.

(** The device list never shrinks. *)
Lemma step_count w e : count (devices w) <= count (devices (step parse w e)).
Proof.
  destruct e as [| |l| | |i err|i|message|]; cbn [step].
  - unfold start. destruct (client w) as [s|]; [|cbn; lia].
    destruct (Dgram.bind s); cbn; lia.
  - unfold destroy. destruct (client w) as [s|]; [|cbn; lia].
    destruct (Dgram.close _ s). cbn. lia.
  - cbn. lia.
  - unfold onListening. destruct (client w) as [s|]; [|lia].
    destruct (Dgram.handle s), (Dgram.bindState s); try lia.
    destruct (bindCallbacks _ _ _) as [[? ?] ?]. cbn. lia.
  - unfold onBindError. destruct (client w) as [s|]; [|lia].
    destruct (Dgram.handle s), (Dgram.bindState s); cbn; lia.
  - unfold sendCallback. destruct (runs w !! i) as [r|]; [|lia].
    destruct (stage r); try lia. destruct err; cbn; lia.
  - unfold onTick. destruct (runs w !! i); cbn; lia.
  - unfold onDatagram, onSocketMessage. destruct (client w) as [s|]; [|lia].
    destruct (Dgram.receiving s); [|lia].
    destruct (parse message), (debug (options w)); cbn; try lia;
      apply addDevice_count.
  - unfold onClose. destruct (client w) as [s|]; [|lia].
    destruct (negb (Dgram.handle s) && negb (Dgram.closeEmitted s)); cbn; lia.
Qed.

Lemma exec_count es w : count (devices w) <= count (devices (exec parse es w)).
Proof.
  revert w. induction es as [|e es IH]; intros w; [cbn; lia|].
  rewrite exec_cons. etrans; [apply step_count|apply IH].
Qed.

(** A run whose timer is armed, or which has nothing scheduled, is
    touched by its own timer alone. *)
Lemma step_run w e i r :
  runs w !! i = Some r ->
  stage r = Polling \/ stage r = Idle ->
  runs (step parse w e) !! i =
    Some (match e with
          | Tick j => if decide (j = i) then fire (devices w) (options w) r else r
          | _ => r
          end).
Proof.
  intros Hi Hs. destruct e as [| |l| | |i0 err|i0|message|]; cbn [step]; try done.
  - unfold start. destruct (client w) as [s|]; [destruct (Dgram.bind s)|];
      cbn; by apply lookup_app_l_Some.
  - unfold destroy. destruct (client w) as [s|]; [|done].
    by destruct (Dgram.close _ s).
  - unfold onListening. destruct (client w) as [s|]; [|done].
    destruct (Dgram.handle s), (Dgram.bindState s); try done.
    pose proof (bindCallbacks_runs (options w) (runs w)
                  (Dgram.withBindState Dgram.BIND_STATE_BOUND s)) as Hr.
    destruct (bindCallbacks _ _ _) as [[rs s'] th]. cbn [fst] in Hr. subst rs.
    cbn [setRuns runs]. change map with (@fmap list _).
    rewrite list_lookup_fmap, Hi. cbn. f_equal. unfold afterListening.
    by destruct Hs as [-> | ->].
  - unfold onBindError. destruct (client w) as [s|]; [|done].
    destruct (Dgram.handle s), (Dgram.bindState s); try done.
    cbn [setRuns runs]. change map with (@fmap list _).
    rewrite list_lookup_fmap, Hi. cbn. f_equal. unfold dropBindCallback.
    by destruct Hs as [-> | ->].
  - unfold sendCallback. destruct (runs w !! i0) as [r0|] eqn:E0; [|done].
    destruct (stage r0) eqn:Es0; try done.
    assert (i0 <> i) as Hne.
    { intros ->. rewrite Hi in E0. injection E0 as ->.
      destruct Hs as [Hs | Hs]; congruence. }
    destruct err; cbn [setRuns runs addLog]; by rewrite list_lookup_insert_ne.
  - unfold onTick. destruct (decide (i0 = i)) as [->|Hne].
    + rewrite Hi. cbn [setRuns runs]. apply list_lookup_insert_eq.
      by eapply lookup_lt_Some.
    + destruct (runs w !! i0); [|done]. cbn [setRuns runs].
      by rewrite list_lookup_insert_ne.
  - unfold onDatagram, onSocketMessage. destruct (client w) as [s|]; [|done].
    destruct (Dgram.receiving s); [|done].
    by destruct (parse message), (debug (options w)).
  - unfold onClose. destruct (client w) as [s|]; [|done].
    by destruct (negb (Dgram.handle s) && negb (Dgram.closeEmitted s)).
Qed.

End EventLoop.

(** ** Running without a timeout *)

Section Unbounded.

Variable parse : string -> option IDevice.

Lemma zero_timeout_step w e i r :
  timeout (options w) = 0 ->
  runs w !! i = Some r ->
  pollingOrLimitReached w r ->
  exists r', runs (step parse w e) !! i = Some r' /\
             pollingOrLimitReached (step parse w e) r'.
Proof.
  intros Ht Hi Hinv.
  assert (stage r = Polling \/ stage r = Idle) as Hs
    by (destruct Hinv as [[? _]|[? _]]; auto).
  eexists. split; [by apply step_run|].
  unfold pollingOrLimitReached. rewrite step_options.
  pose proof (step_count parse w e) as Hc.
  assert ((stage r = Polling /\ promise r = Pending) \/
          (stage r = Idle /\ promise r = Fulfilled ThisDevices /\
           limit (options w) <= count (devices (step parse w e)))) as Hsame.
  { destruct Hinv as [?|(?&?&?)]; [by left|right].
    repeat split; try done. lia. }
  destruct e as [| |l| | |j err|j|m|]; try exact Hsame.
  destruct (decide (j = i)) as [->|]; [|exact Hsame].
  destruct Hinv as [[Hst Hp]|(Hst&Hp&Hl)].
  - unfold fire. rewrite Hst.
    destruct (Z.le_gt_cases (limit (options w)) (count (devices w))) as [Hl|Hl].
    + right. destruct (tick_limit_reached (devices w) (options w) r Hp Hl).
      repeat split; try done. lia.
    + left. rewrite tick_waits; [|lia|lia]. by cbn.
  - right. unfold fire. rewrite Hst. repeat split; try done. lia.
Qed.

Lemma zero_timeout_exec es w i r :
  timeout (options w) = 0 ->
  runs w !! i = Some r ->
  pollingOrLimitReached w r ->
  exists r', runs (exec parse es w) !! i = Some r' /\
             pollingOrLimitReached (exec parse es w) r'.
Proof.
  revert w r. induction es as [|e es IH]; intros w r Ht Hi Hinv.
  - exists r. by split.
  - rewrite exec_cons.
    destruct (zero_timeout_step w e i r Ht Hi Hinv) as (r1 & Hi1 & Hinv1).
    apply (IH _ r1); [by rewrite step_options|done|done].
Qed.

End Unbounded.

(** C6. With [timeout = 0] the second [if] of the timer callback is dead,
    so whatever happens to the engine afterwards (datagrams, ticks,
    further calls of [start] or [destroy]), a run that is polling is never
    rejected: it is either still polling with its promise pending, or it
    was fulfilled by the limit branch, the limit being reached; as long as
    the device count stays below the limit it never settles. *)
Theorem zero_timeout_never_times_out
    (parse : string -> option IDevice) (es : list Event) (w : Discover)
    (i : nat) (r : Run) :
  timeout (options w) = 0 ->
  runs w !! i = Some r -> stage r = Polling -> promise r = Pending ->
  (forall ds r0, checkTimeout ds (options w) r0 = r0) /\
  exists r', runs (exec parse es w) !! i = Some r' /\
    (forall reason, promise r' <> Rejected reason) /\
    pollingOrLimitReached (exec parse es w) r' /\
    (count (devices (exec parse es w)) < limit (options w) ->
     stage r' = Polling /\ promise r' = Pending).
Proof.
  intros Ht Hi Hs Hp. split.
  - intros ds r0. apply checkTimeout_quiet. lia.
  - destruct (zero_timeout_exec parse es w i r Ht Hi) as (r' & Hi' & Hinv).
    { by left. }
    exists r'. split; [exact Hi'|]. split; [|split; [exact Hinv|]].
    + intros reason. destruct Hinv as [[_ ->]|(_ & -> & _)]; discriminate.
    + intros Hlt. destruct Hinv as [?|(_ & _ & Hl)]; [done|].
      rewrite exec_options in Hl. lia.
Qed.

Lemma zero_timeout_never_times_out_witness :
  let w := exec sampleParser [CallStart; Listening; SendDone 0%nat None]
                (new_Discover (sampleOptions 2 0)) in
  let es := [Message "abc"; Tick 0%nat; CallDestroy; CloseEvent;
             Tick 0%nat; Tick 0%nat] in
  (forall ds r0, checkTimeout ds (options w) r0 = r0) /\
  exists r', runs (exec sampleParser es w) !! 0%nat = Some r' /\
    (forall reason, promise r' <> Rejected reason) /\
    pollingOrLimitReached (exec sampleParser es w) r' /\
    (count (devices (exec sampleParser es w)) < limit (options w) ->
     stage r' = Polling /\ promise r' = Pending).
Proof.
  apply (zero_timeout_never_times_out sampleParser
           [Message "abc"; Tick 0%nat; CallDestroy; CloseEvent;
            Tick 0%nat; Tick 0%nat]
           (exec sampleParser [CallStart; Listening; SendDone 0%nat None]
                 (new_Discover (sampleOptions 2 0)))
           0%nat armed); reflexivity.
Defined.

(** ** The socket over time *)

Section SocketFacts.

Variable parse : string -> option IDevice.

Implicit Types (w : Discover) (e : Event) (es : list Event) (s : Dgram.Socket).

(** [this.client] is set by the constructor and never cleared. *)
Lemma step_client_some w e :
  is_Some (client w) -> is_Some (client (step parse w e)).
Proof.
  intros [s Hc].
  assert (is_Some (client w)) as Hw by (by exists s).
  destruct e as [| |l| | |i err|i|message|]; cbn [step].
  - unfold start. rewrite Hc. destruct (Dgram.bind s); cbn; [done|by eexists].
  - unfold destroy. rewrite Hc. cbn. by eexists.
  - exact Hw.
  - unfold onListening. rewrite Hc.
    destruct (Dgram.handle s), (Dgram.bindState s); try exact Hw.
    destruct (bindCallbacks _ _ _) as [[? ?] ?]. cbn. by eexists.
  - unfold onBindError. rewrite Hc.
    destruct (Dgram.handle s), (Dgram.bindState s); try exact Hw.
    cbn. by eexists.
  - unfold sendCallback. destruct (runs w !! i) as [r|]; [|exact Hw].
    destruct (stage r); try exact Hw. destruct err; exact Hw.
  - unfold onTick. destruct (runs w !! i); exact Hw.
  - unfold onDatagram, onSocketMessage. rewrite Hc.
    destruct (Dgram.receiving s); [|exact Hw].
    destruct (parse message), (debug (options w)); exact Hw.
  - unfold onClose. rewrite Hc.
    destruct (negb (Dgram.handle s) && negb (Dgram.closeEmitted s)); [|exact Hw].
    cbn. by eexists.
Qed.

Lemma exec_client_some es w :
  is_Some (client w) -> is_Some (client (exec parse es w)).
Proof.
  revert w. induction es as [|e es IH]; intros w H; [done|].
  rewrite exec_cons. apply IH. by apply step_client_some.
Qed.

Lemma receiving_closed s : Dgram.handle s = false -> Dgram.receiving s = false.
Proof. unfold Dgram.receiving. by intros ->. Qed.

(** Once the socket is closed it stays closed, no datagram is handled any
    more, and so the device list and the emissions are frozen. *)
Lemma step_closed w e s :
  client w = Some s -> Dgram.handle s = false ->
  exists s', client (step parse w e) = Some s' /\ Dgram.handle s' = false /\
             devices (step parse w e) = devices w /\
             emitted (step parse w e) = emitted w.
Proof.
  intros Hc Hh.
  destruct e as [| |l| | |i err|i|message|]; cbn [step].
  - unfold start, Dgram.bind, Dgram.healthCheck. rewrite Hc, Hh. by exists s.
  - unfold destroy. rewrite Hc. cbn. eexists. by repeat split.
  - exists s. by repeat split.
  - unfold onListening. rewrite Hc, Hh. by exists s.
  - unfold onBindError. rewrite Hc, Hh. by exists s.
  - unfold sendCallback. destruct (runs w !! i) as [r|]; [|by exists s].
    destruct (stage r); try by exists s. destruct err; by exists s.
  - unfold onTick. destruct (runs w !! i); by exists s.
  - unfold onDatagram. rewrite Hc, (receiving_closed s Hh). by exists s.
  - unfold onClose. rewrite Hc.
    destruct (negb (Dgram.handle s) && negb (Dgram.closeEmitted s));
      [|by exists s].
    eexists. by repeat split.
Qed.

Lemma exec_closed es w s :
  client w = Some s -> Dgram.handle s = false ->
  exists s', client (exec parse es w) = Some s' /\ Dgram.handle s' = false /\
             devices (exec parse es w) = devices w /\
             emitted (exec parse es w) = emitted w.
Proof.
  revert w s. induction es as [|e es IH]; intros w s Hc Hh.
  - by exists s.
  - rewrite exec_cons.
    destruct (step_closed w e s Hc Hh) as (s1 & Hc1 & Hh1 & Hd1 & He1).
    destruct (IH _ s1 Hc1 Hh1) as (s2 & Hc2 & Hh2 & Hd2 & He2).
    exists s2. repeat split; congruence.
Qed.

(** A socket that is taken stays so unless a bind fails. *)
Lemma step_taken w e s :
  client w = Some s -> taken s -> e <> BindFailed ->
  exists s', client (step parse w e) = Some s' /\ taken s'.
Proof.
  intros Hc Ht Hne.
  assert (exists s', client w = Some s' /\ taken s') as Hsame by (by exists s).
  destruct e as [| |l| | |i err|i|message|]; cbn [step]; try done.
  - unfold start, Dgram.bind, Dgram.healthCheck. rewrite Hc.
    destruct (Dgram.handle s) eqn:Hh; [|exact Hsame].
    destruct Ht as [?|Hu]; [congruence|]. rewrite Hu. exact Hsame.
  - unfold destroy. rewrite Hc. cbn. eexists. split; [done|]. by left.
  - unfold onListening. rewrite Hc.
    destruct (Dgram.handle s) eqn:Hh; [|exact Hsame].
    destruct (Dgram.bindState s) eqn:Hb; try exact Hsame.
    pose proof (bindCallbacks_socket (options w) (runs w)
                  (Dgram.withBindState Dgram.BIND_STATE_BOUND s)) as (_ & Hb' & _).
    destruct (bindCallbacks _ _ _) as [[rs s'] th]. cbn [fst snd] in Hb'.
    exists s'. split; [reflexivity|]. right. unfold Dgram.isUnbound. by rewrite Hb'.
  - unfold sendCallback. destruct (runs w !! i) as [r|]; [|exact Hsame].
    destruct (stage r); try exact Hsame. destruct err; exact Hsame.
  - unfold onTick. destruct (runs w !! i); exact Hsame.
  - unfold onDatagram, onSocketMessage. rewrite Hc.
    destruct (Dgram.receiving s); [|exact Hsame].
    destruct (parse message), (debug (options w)); exact Hsame.
  - unfold onClose. rewrite Hc.
    destruct (negb (Dgram.handle s) && negb (Dgram.closeEmitted s));
      [|exact Hsame].
    eexists. split; [done|]. exact Ht.
Qed.

Lemma exec_taken es w s :
  client w = Some s -> taken s -> BindFailed ∉ es ->
  exists s', client (exec parse es w) = Some s' /\ taken s'.
Proof.
  revert w s. induction es as [|e es IH]; intros w s Hc Ht Hnot.
  - by exists s.
  - apply not_elem_of_cons in Hnot as [Hne Hnot]. rewrite exec_cons.
    destruct (step_taken w e s Hc Ht) as (s1 & Hc1 & Ht1); [congruence|].
    by apply (IH _ s1).
Qed.

End SocketFacts.

(** ** A rejected [start] leaves no trace *)

Section InertRun.

Variable parse : string -> option IDevice.

Implicit Types (w : Discover) (e : Event) (es : list Event) (r : Run).

Lemma bindCallbacks_app_inert o rs s r0 :
  stage r0 = Idle ->
  bindCallbacks o (rs ++ [r0]) s =
    ((bindCallbacks o rs s).1.1 ++ [r0], (bindCallbacks o rs s).1.2,
     (bindCallbacks o rs s).2).
Proof.
  intros H0. revert s. induction rs as [|r rs IH]; intros s.
  - cbn. by rewrite H0.
  - cbn [app bindCallbacks]. destruct (stage r).
    + destruct (Dgram.send _ _) as [e|s1];
        rewrite IH; by destruct (bindCallbacks o rs _) as [[? ?] ?].
    + rewrite IH. by destruct (bindCallbacks o rs _) as [[? ?] ?].
    + rewrite IH. by destruct (bindCallbacks o rs _) as [[? ?] ?].
    + rewrite IH. by destruct (bindCallbacks o rs _) as [[? ?] ?].
Qed.

(** A run with nothing scheduled, added at the end of the list, commutes
    with every event but a further [start]. *)
Lemma step_addRun_inert w e r0 :
  stage r0 = Idle -> e <> CallStart ->
  step parse (addRun r0 w) e = addRun r0 (step parse w e).
Proof.
  intros H0 Hne.
  destruct e as [| |l| | |i err|i|message|]; cbn [step]; try done.
  - unfold destroy, addRun. cbn. by destruct (client w).
  - unfold onListening, addRun. cbn. destruct (client w) as [s|]; [|done].
    destruct (Dgram.handle s), (Dgram.bindState s); try done.
    rewrite bindCallbacks_app_inert by done.
    by destruct (bindCallbacks _ (runs w) _) as [[? ?] ?].
  - unfold onBindError, addRun. cbn. destruct (client w) as [s|]; [|done].
    destruct (Dgram.handle s), (Dgram.bindState s); try done.
    cbn. rewrite map_app. cbn. unfold dropBindCallback at 2. by rewrite H0.
  - unfold sendCallback, addRun. cbn [runs setRuns].
    destruct (runs w !! i) as [r|] eqn:E.
    + rewrite (lookup_app_l_Some _ _ _ _ E).
      pose proof (lookup_lt_Some _ _ _ E) as Hlt.
      destruct (stage r); try done.
      destruct err; cbn; by rewrite insert_app_l.
    + apply lookup_ge_None in E. rewrite lookup_app_r by done.
      destruct (i - length (runs w))%nat as [|k]; cbn; [by rewrite H0|done].
  - unfold onTick, addRun. cbn [runs setRuns devices options].
    destruct (runs w !! i) as [r|] eqn:E.
    + rewrite (lookup_app_l_Some _ _ _ _ E).
      pose proof (lookup_lt_Some _ _ _ E) as Hlt.
      cbn. by rewrite insert_app_l.
    + pose proof E as Hge. apply lookup_ge_None in Hge.
      destruct ((runs w ++ [r0]) !! i) as [r|] eqn:E'; [|done].
      assert (r = r0) as ->.
      { rewrite lookup_app_r in E' by done.
        destruct (i - length (runs w))%nat as [|[|k]]; cbn in E'; congruence. }
      unfold fire. rewrite H0. cbn. by rewrite list_insert_id.
  - unfold onDatagram, onSocketMessage, addRun. cbn.
    destruct (client w) as [s|]; [|done].
    destruct (Dgram.receiving s); [|done].
    by destruct (parse message), (debug (options w)).
  - unfold onClose, addRun. cbn. destruct (client w) as [s|]; [|done].
    by destruct (negb (Dgram.handle s) && negb (Dgram.closeEmitted s)).
Qed.

Lemma exec_addRun_inert es w r0 :
  stage r0 = Idle -> CallStart ∉ es ->
  exec parse es (addRun r0 w) = addRun r0 (exec parse es w).
Proof.
  intros H0. revert w. induction es as [|e es IH]; intros w Hnot; [done|].
  apply not_elem_of_cons in Hnot as [Hne Hnot].
  rewrite !exec_cons, step_addRun_inert by congruence. by apply IH.
Qed.

(** [start] on a taken socket only adds a rejected run. *)
Lemma start_taken w s :
  client w = Some s -> taken s ->
  start w =
    addRun {| stage := Idle; ts := 0;
              promise := Rejected (Err (if Dgram.handle s
                                        then ERR_SOCKET_ALREADY_BOUND
                                        else ERR_SOCKET_DGRAM_NOT_RUNNING)) |} w.
Proof.
  intros Hc Ht. unfold start, Dgram.bind, Dgram.healthCheck. rewrite Hc.
  destruct (Dgram.handle s) eqn:Hh; [|reflexivity].
  destruct Ht as [?|Hu]; [congruence|]. by rewrite Hu.
Qed.

End InertRun.

Section OpenSocket.

Variable parse : string -> option IDevice.

Implicit Types (w : Discover) (e : Event) (es : list Event) (s : Dgram.Socket).

(** Nothing but [destroy] closes the socket. *)
Lemma step_open w e s :
  client w = Some s -> Dgram.handle s = true -> e <> CallDestroy ->
  exists s', client (step parse w e) = Some s' /\ Dgram.handle s' = true.
Proof.
  intros Hc Hh Hne.
  assert (exists s', client w = Some s' /\ Dgram.handle s' = true) as Hsame
    by (by exists s).
  destruct e as [| |l| | |i err|i|message|]; cbn [step]; try done.
  - unfold start, Dgram.bind, Dgram.healthCheck. rewrite Hc, Hh.
    destruct (Dgram.isUnbound s); [|exact Hsame]. by eexists.
  - unfold onListening. rewrite Hc, Hh.
    destruct (Dgram.bindState s); try exact Hsame.
    pose proof (bindCallbacks_socket (options w) (runs w)
                  (Dgram.withBindState Dgram.BIND_STATE_BOUND s)) as (Hh' & _).
    destruct (bindCallbacks _ _ _) as [[rs s'] th]. cbn [fst snd] in Hh'.
    exists s'. split; [reflexivity|]. by rewrite Hh'.
  - unfold onBindError. rewrite Hc, Hh.
    destruct (Dgram.bindState s); try exact Hsame. by eexists.
  - unfold sendCallback. destruct (runs w !! i) as [r|]; [|exact Hsame].
    destruct (stage r); try exact Hsame. destruct err; exact Hsame.
  - unfold onTick. destruct (runs w !! i); exact Hsame.
  - unfold onDatagram, onSocketMessage. rewrite Hc.
    destruct (Dgram.receiving s); [|exact Hsame].
    destruct (parse message), (debug (options w)); exact Hsame.
  - unfold onClose. rewrite Hc, Hh. exact Hsame.
Qed.

Lemma exec_open es w s :
  client w = Some s -> Dgram.handle s = true -> CallDestroy ∉ es ->
  exists s', client (exec parse es w) = Some s' /\ Dgram.handle s' = true.
Proof.
  revert w s. induction es as [|e es IH]; intros w s Hc Hh Hnot.
  - by exists s.
  - apply not_elem_of_cons in Hnot as [Hne Hnot]. rewrite exec_cons.
    destruct (step_open w e s Hc Hh) as (s1 & Hc1 & Hh1); [congruence|].
    by apply (IH _ s1).
Qed.

(** While the socket is bound and open, nothing but [destroy] touches
    it. *)
Lemma step_receiving w e s :
  client w = Some s -> Dgram.receiving s = true -> e <> CallDestroy ->
  client (step parse w e) = Some s.
Proof.
  intros Hc Hr Hne. unfold Dgram.receiving in Hr.
  apply andb_prop in Hr as [Hh Hb].
  destruct (Dgram.bindState s) eqn:Hbs; try discriminate.
  destruct e as [| |l| | |i err|i|message|]; cbn [step]; try done.
  - unfold start, Dgram.bind, Dgram.healthCheck, Dgram.isUnbound.
    by rewrite Hc, Hh, Hbs.
  - unfold onListening. by rewrite Hc, Hh, Hbs.
  - unfold onBindError. by rewrite Hc, Hh, Hbs.
  - unfold sendCallback. destruct (runs w !! i) as [r|]; [|done].
    destruct (stage r); try done. by destruct err.
  - unfold onTick. by destruct (runs w !! i).
  - unfold onDatagram, onSocketMessage. rewrite Hc.
    destruct (Dgram.receiving s); [|done].
    by destruct (parse message), (debug (options w)).
  - unfold onClose. by rewrite Hc, Hh.
Qed.

End OpenSocket.

(** C5, as stated, does not hold: the class keeps no record of having been
    started, a second [start] simply calls [bind] again.  When the first
    bind failed, the socket is unbound again, the second call is accepted,
    and it runs to success while the first promise stays pending. *)
Lemma second_start_after_failed_bind_not_rejected :
  let w := exec sampleParser [CallStart; BindFailed; CallStart]
                (new_Discover (sampleOptions 1 1000)) in
  runs w !! 1%nat =
    Some {| stage := AwaitListening; ts := 0; promise := Pending |} /\
  runs (exec sampleParser
             [Listening; SendDone 1%nat None; Message "abc"; Tick 1%nat] w) !! 1%nat =
    Some {| stage := Idle; ts := 200; promise := Fulfilled ThisDevices |} /\
  promise <$> runs w !! 0%nat = Some Pending.
Proof. vm_compute. repeat split; reflexivity. Qed.

(** ** A failed send *)

(** C7, as stated, does not hold: after the send callback reported an
    error the promise is rejected with it, but the socket was not closed:
    it is still open and bound, and a datagram arriving afterwards is still
    taken into the device list. *)
Lemma send_failure_leaves_socket_open :
  let w := exec sampleParser
                [CallStart; Listening; SendDone 0%nat (Some (SystemError "EPERM"))]
                (new_Discover (sampleOptions 1 1000)) in
  runs w = [ {| stage := Idle; ts := 0;
                promise := Rejected (Err (SystemError "EPERM")) |} ] /\
  (exists s, client w = Some s /\ Dgram.handle s = true /\
             Dgram.bindState s = Dgram.BIND_STATE_BOUND /\
             Dgram.receiving s = true) /\
  length (devices (exec sampleParser [Message "abc"] w)) = 1%nat.
Proof.
  vm_compute. split; [reflexivity|]. split; [|reflexivity].
  eexists. repeat split; reflexivity.
Qed.

(** ** [destroy] *)

(** C8, as stated, does not hold: [destroy] has no handle on the interval
    timer of [start].  Here [destroy] is called while [start] is pending and
    has completed (its promise is fulfilled); the timer is still armed, the
    next two ticks run, and the second one rejects the promise of
    [start]. *)
Lemma ticks_run_after_destroy :
  let w := exec sampleParser
                [CallStart; Listening; SendDone 0%nat None; CallDestroy; CloseEvent]
                (new_Discover (sampleOptions 1 200)) in
  destroys w = [Fulfilled tt] /\
  runs w = [armed] /\
  runs (exec sampleParser [Tick 0%nat] w) =
    [ {| stage := Polling; ts := 200; promise := Pending |} ] /\
  runs (exec sampleParser [Tick 0%nat; Tick 0%nat] w) =
    [ {| stage := Idle; ts := 400;
         promise := Rejected (Text "No device found after timeout exceeded : 400") |} ].
Proof. vm_compute. repeat split; reflexivity. Qed.

(** C8, amended. [destroy] removes the engine's event listeners and closes
    the socket, so that under every later sequence of events no datagram is
    handled: the device list and the [deviceAdded] emissions stay as they
    were.  It does not cancel the poll timer: the runs are left untouched,
    and a timer that was armed goes on firing. *)
Theorem destroy_stops_datagrams_not_timer
    (parse : string -> option IDevice) (w : Discover) (s : Dgram.Socket)
    (es : list Event) :
  client w = Some s ->
  let w' := destroy w in
  listeners w' = [] /\
  (exists s', client w' = Some s' /\ Dgram.handle s' = false /\
              Dgram.receiving s' = false) /\
  devices (exec parse es w') = devices w /\
  emitted (exec parse es w') = emitted w /\
  runs w' = runs w /\
  (forall i r, runs w !! i = Some r ->
     runs (step parse w' (Tick i)) !! i = Some (fire (devices w) (options w) r)).
Proof.
  intros Hc. cbn zeta.
  assert (destroy w =
          setDestroys (destroys w ++ [match Dgram.healthCheck s with
                                      | Some e => Rejected e
                                      | None => Pending
                                      end])
            (setClient (Some (Dgram.close (length (destroys w)) s).1)
                       (setListeners [] w))) as Hd.
  { unfold destroy. by rewrite Hc. }
  rewrite Hd. cbn [setDestroys setClient setListeners listeners client runs].
  split; [reflexivity|]. split; [by eexists|].
  destruct (exec_closed parse es
              (setDestroys (destroys w ++ [match Dgram.healthCheck s with
                                           | Some e => Rejected e
                                           | None => Pending
                                           end])
                 (setClient (Some (Dgram.close (length (destroys w)) s).1)
                            (setListeners [] w)))
              (Dgram.close (length (destroys w)) s).1)
    as (s2 & _ & _ & Hdev & Hem); [reflexivity|reflexivity|].
  split; [exact Hdev|]. split; [exact Hem|]. split; [reflexivity|].
  intros i r Hi. cbn [step]. unfold onTick.
  cbn [setDestroys setClient setListeners runs devices options setRuns].
  rewrite Hi. cbn [runs]. apply list_lookup_insert_eq. by eapply lookup_lt_Some.
Qed.

Lemma destroy_stops_datagrams_not_timer_witness :
  let w := exec sampleParser [CallStart; Listening; SendDone 0%nat None]
                (new_Discover (sampleOptions 1 200)) in
  let es := [Message "abc"; Tick 0%nat; Tick 0%nat] in
  let w' := destroy w in
  listeners w' = [] /\
  (exists s', client w' = Some s' /\ Dgram.handle s' = false /\
              Dgram.receiving s' = false) /\
  devices (exec sampleParser es w') = devices w /\
  emitted (exec sampleParser es w') = emitted w /\
  runs w' = runs w /\
  (forall i r, runs w !! i = Some r ->
     runs (step sampleParser w' (Tick i)) !! i = Some (fire (devices w) (options w) r)).
Proof.
  eapply (destroy_stops_datagrams_not_timer sampleParser
            (exec sampleParser [CallStart; Listening; SendDone 0%nat None]
                  (new_Discover (sampleOptions 1 200)))
            _ [Message "abc"; Tick 0%nat; Tick 0%nat]).
  reflexivity.
Defined.

(** [destroy] before [start] was ever called: the socket is open, the
    close goes through, and the promise is fulfilled by the close event. *)
Lemma destroy_before_start_fulfils (parse : string -> option IDevice) (g : Given.t) :
  destroys (exec parse [CallDestroy] (new_Discover g)) = [Pending] /\
  destroys (exec parse [CallDestroy; CloseEvent] (new_Discover g)) = [Fulfilled tt].
Proof. split; reflexivity. Qed.

(** [destroy] after the run has completed. *)
Lemma destroy_after_completion_fulfils :
  let w := exec sampleParser
                [CallStart; Listening; SendDone 0%nat None; Message "abc"; Tick 0%nat]
                (new_Discover (sampleOptions 1 1000)) in
  runs w = [ {| stage := Idle; ts := 200; promise := Fulfilled ThisDevices |} ] /\
  destroys (exec sampleParser [CallDestroy; CloseEvent] w) = [Fulfilled tt].
Proof. vm_compute. split; reflexivity. Qed.

(** C9. The guard [if (!this.client)] never applies, since nothing clears
    [this.client]: on an engine built by the constructor, however it was
    used, once [destroy] has been called a further [destroy] calls [close]
    on the closed socket, [close] throws, and the promise returned is
    rejected with the socket's not-running error. *)
Theorem destroy_twice_rejects
    (parse : string -> option IDevice) (g : Given.t) (es1 es2 : list Event) :
  let w := exec parse (es1 ++ CallDestroy :: es2) (new_Discover g) in
  is_Some (client w) /\
  destroys (destroy w) = destroys w ++ [Rejected ERR_SOCKET_DGRAM_NOT_RUNNING].
Proof.
  cbn zeta. rewrite exec_app, exec_cons.
  set (w0 := exec parse es1 (new_Discover g)).
  assert (is_Some (client w0)) as [s0 Hc0].
  { apply exec_client_some. by eexists. }
  assert (client (step parse w0 CallDestroy) =
          Some (Dgram.close (length (destroys w0)) s0).1) as Hc1.
  { cbn [step]. unfold destroy. by rewrite Hc0. }
  destruct (exec_closed parse es2 _ _ Hc1) as (s & Hc & Hh & _); [reflexivity|].
  split; [by eexists|].
  unfold destroy. rewrite Hc. unfold Dgram.close, Dgram.healthCheck.
  by rewrite Hh.
Qed.

(** The plainest case: two calls of [destroy] on a fresh engine. *)
Lemma destroy_twice_on_fresh_engine :
  destroys (exec sampleParser [CallDestroy; CloseEvent; CallDestroy]
                 (new_Discover Given.none)) =
    [Fulfilled tt; Rejected ERR_SOCKET_DGRAM_NOT_RUNNING].
Proof. reflexivity. Qed.

(** ** Datagrams after completion *)

(** The array handed out by a fulfilled [start] is the engine's own: a
    datagram handled after completion shows up in it. *)
Lemma resolved_array_grows_after_completion :
  let w := exec sampleParser
                [CallStart; Listening; SendDone 0%nat None; Message "abc"; Tick 0%nat]
                (new_Discover (sampleOptions 1 1000)) in
  (promise <$> runs w) = [Fulfilled ThisDevices] /\
  ids (deref w ThisDevices) = ["abc"] /\
  ids (deref (exec sampleParser [Message "def"] w) ThisDevices) = ["abc"; "def"].
Proof. vm_compute. repeat split; reflexivity. Qed.

(** * Further properties *)

(** ** More on the upsert *)

Section Upsert.

Implicit Types (d : IDevice) (ds : list IDevice).

Lemma findIndex_nonneg_or_absent key ds :
  findIndex key ds = -1 \/ 0 <= findIndex key ds < Z.of_nat (length ds).
Proof.
  destruct (findIndexFrom_shift 0 key ds) as [H|H]; [by left|right].
  unfold findIndex. lia.
Qed.

Lemma findIndex_positive key ds :
  key ∈ ids ds -> head (ids ds) <> Some key -> 0 < findIndex key ds.
Proof.
  intros Hin Hhd.
  destruct (findIndex_nonneg_or_absent key ds) as [H|H].
  - apply findIndex_absent in H. contradiction.
  - destruct (decide (findIndex key ds = 0)) as [H0|]; [|lia].
    apply findIndex_found in H0; [|lia].
    change (Z.to_nat 0) with 0%nat in H0.
    destruct ds as [|x xs]; cbn in *; congruence.
Qed.

Lemma addDevice_cases ds d :
  (addDevice ds d = (ds ++ [d], 1) /\
   (id d ∉ ids ds \/ head (ids ds) = Some (id d))) \/
  (exists k, (0 < k < length ds)%nat /\ ids ds !! k = Some (id d) /\
             addDevice ds d = (<[k := d]> ds, 0)).
Proof.
  unfold addDevice.
  destruct (Z.leb_spec (findIndex (id d) ds) 0) as [Hle|Hgt].
  - left. split; [done|].
    destruct (findIndex_nonneg_or_absent (id d) ds) as [H|H].
    + left. by apply findIndex_absent.
    + right. assert (findIndex (id d) ds = 0) as H0 by lia.
      apply findIndex_found in H0; [|lia].
      change (Z.to_nat 0) with 0%nat in H0.
      destruct ds as [|x xs]; cbn in *; congruence.
  - right. exists (Z.to_nat (findIndex (id d) ds)).
    destruct (findIndex_nonneg_or_absent (id d) ds) as [H|H]; [lia|].
    split; [lia|]. split; [|done].
    apply findIndex_found; [done|lia].
Qed.

Lemma addDevice_head ds d d0 :
  head ds = Some d0 -> id d <> id d0 ->
  head (fst (addDevice ds d)) = Some d0.
Proof.
  intros Hhd Hne.
  destruct (addDevice_cases ds d) as [[-> _]|(k & Hk & _ & ->)]; cbn [fst].
  - destruct ds; cbn in *; congruence.
  - destruct ds as [|x xs]; [done|]. destruct k as [|k]; [lia|]. done.
Qed.

Lemma upsertAll_unique_from ds d0 incoming :
  NoDup (ids ds) -> head ds = Some d0 ->
  Forall (fun d => id d <> id d0) incoming ->
  NoDup (ids (upsertAll ds incoming)) /\ head (upsertAll ds incoming) = Some d0.
Proof.
  revert ds. induction incoming as [|d rest IH]; intros ds Hnd Hhd Hall.
  - done.
  - apply Forall_cons in Hall as [Hd Hall]. cbn [upsertAll foldl].
    apply IH; [|by apply addDevice_head|done].
    apply addDevice_keeps_unique; [done|].
    destruct ds as [|x xs]; [done|]. cbn in *. congruence.
Qed.

(** Devices whose identifiers are new, and pairwise distinct, are appended
    one after the other. *)
Lemma upsertAll_fresh_from incoming ds :
  NoDup (ids (ds ++ incoming)) -> upsertAll ds incoming = ds ++ incoming.
Proof.
  revert ds. induction incoming as [|d rest IH]; intros ds Hnd.
  - cbn. by rewrite app_nil_r.
  - cbn [upsertAll foldl]. rewrite addDevice_fresh.
    + cbn [fst]. fold (upsertAll (ds ++ [d]) rest).
      rewrite IH; rewrite <- app_assoc; done.
    + unfold ids in Hnd. rewrite map_app in Hnd. cbn [map] in Hnd.
      apply NoDup_app in Hnd as (_ & Hdisj & _).
      intros Hin. apply (Hdisj _ Hin). apply list_elem_of_here.
Qed.

End Upsert.

(** X1. The device list stays free of duplicate identifiers, with the
    first-seen device still in front, through every sequence of upserts in
    which the identifier of the first-seen device does not come again. *)
Theorem upsertAll_keeps_ids_unique (d0 : IDevice) (incoming : list IDevice) :
  Forall (fun d => id d <> id d0) incoming ->
  NoDup (ids (upsertAll [d0] incoming)) /\
  head (upsertAll [d0] incoming) = Some d0.
Proof.
  intros Hall. apply upsertAll_unique_from; [|done|done].
  cbn. apply NoDup_singleton.
Qed.

Lemma upsertAll_keeps_ids_unique_witness :
  NoDup (ids (upsertAll [bulbA] [bulbB; bulbB])) /\
  head (upsertAll [bulbA] [bulbB; bulbB]) = Some bulbA.
Proof.
  apply (upsertAll_keeps_ids_unique bulbA [bulbB; bulbB]).
  repeat constructor; discriminate.
Defined.

(** X2. A device whose identifier is already in the list, but not on the
    first record, replaces the record that carries it: the count is
    unchanged, a lookup by the identifier yields the new record, and the
    flag returned is 0. *)
Theorem addDevice_replaces_known_device (ds : list IDevice) (d : IDevice) :
  id d ∈ ids ds -> head (ids ds) <> Some (id d) ->
  count (fst (addDevice ds d)) = count ds /\
  lookupById (id d) (fst (addDevice ds d)) = Some d /\
  snd (addDevice ds d) = 0.
Proof.
  intros Hin Hhd.
  pose proof (findIndex_positive (id d) ds Hin Hhd) as Hpos.
  unfold addDevice.
  replace (findIndex (id d) ds <=? 0) with false
    by (symmetry; apply Z.leb_gt; lia).
  cbn [fst snd]. unfold count. rewrite length_insert.
  split; [done|]. split; [|done].
  apply lookupById_insert_found; [done|lia].
Qed.

Lemma addDevice_replaces_known_device_witness :
  count (fst (addDevice [bulbB; bulbA] bulbA')) = count [bulbB; bulbA] /\
  lookupById (id bulbA') (fst (addDevice [bulbB; bulbA] bulbA')) = Some bulbA' /\
  snd (addDevice [bulbB; bulbA] bulbA') = 0.
Proof.
  apply (addDevice_replaces_known_device [bulbB; bulbA] bulbA').
  - cbn. apply elem_of_cons. right. apply list_elem_of_singleton. reflexivity.
  - cbn. discriminate.
Defined.

(** X3. An upsert never moves or alters a record that carries another
    identifier: it is found at the same position afterwards. *)
Theorem addDevice_keeps_other_records
    (ds : list IDevice) (d x : IDevice) (j : nat) :
  ds !! j = Some x -> id x <> id d ->
  fst (addDevice ds d) !! j = Some x.
Proof.
  intros Hj Hne.
  destruct (addDevice_cases ds d) as [[-> _]|(k & Hk & Hid & ->)]; cbn [fst].
  - by apply lookup_app_l_Some.
  - destruct (decide (k = j)) as [->|Hkj].
    + unfold ids in Hid. change map with (@fmap list _) in Hid.
      rewrite list_lookup_fmap, Hj in Hid. cbn in Hid. congruence.
    + by rewrite list_lookup_insert_ne.
Qed.

Lemma addDevice_keeps_other_records_witness :
  fst (addDevice [bulbB; bulbA] bulbA') !! 0%nat = Some bulbB.
Proof.
  apply (addDevice_keeps_other_records [bulbB; bulbA] bulbA' bulbB 0%nat).
  - reflexivity.
  - discriminate.
Defined.

(** X4. After an upsert the device itself is in the list and the list is
    never shorter.  The flag 1 goes with a list grown by exactly the device
    at its end; the flag 0 goes with an unchanged length and an identifier
    that was already present. *)
Theorem addDevice_flag_and_length (ds : list IDevice) (d : IDevice) :
  d ∈ fst (addDevice ds d) /\
  ((snd (addDevice ds d) = 1 /\ fst (addDevice ds d) = ds ++ [d]) \/
   (snd (addDevice ds d) = 0 /\
    length (fst (addDevice ds d)) = length ds /\ id d ∈ ids ds)).
Proof.
  destruct (addDevice_cases ds d) as [[-> _]|(k & Hk & Hid & ->)]; cbn [fst snd].
  - split; [|by left]. apply elem_of_app. right. by apply list_elem_of_singleton.
  - split.
    + apply list_elem_of_lookup. exists k. apply list_lookup_insert_eq. lia.
    + right. split; [done|]. split; [apply length_insert|].
      apply list_elem_of_lookup. by exists k.
Qed.

(** X5. Devices with pairwise distinct identifiers, upserted into an empty
    list, end up in the list exactly as they came, in arrival order. *)
Theorem upsertAll_distinct_keeps_arrival_order (incoming : list IDevice) :
  NoDup (ids incoming) -> upsertAll [] incoming = incoming.
Proof. intros Hnd. by apply (upsertAll_fresh_from incoming []). Qed.

Lemma upsertAll_distinct_keeps_arrival_order_witness :
  upsertAll [] [bulbA; bulbB] = [bulbA; bulbB].
Proof.
  apply (upsertAll_distinct_keeps_arrival_order [bulbA; bulbB]).
  cbn. repeat constructor.
  - intros H. apply list_elem_of_singleton in H. discriminate.
  - apply not_elem_of_nil.
Defined.

(** ** More on the poll timer *)

Section TimerEdges.

Implicit Types (ds : list IDevice) (o : IDiscoverConfig) (r : Run).

(** The whole result of a tick that finds the limit reached. *)
Lemma tick_limit_reached_run ds o r :
  promise r = Pending -> limit o <= count ds ->
  tick ds o r =
    {| stage := Idle; ts := ts r + interval; promise := Fulfilled ThisDevices |}.
Proof.
  intros Hp Hl. unfold tick. rewrite checkLimit_reached by done.
  cbn [setTs promise]. rewrite Hp. cbn [resolve].
  unfold checkTimeout. cbn [ts setPromise clearInterval setStage setTs].
  destruct ((timeout o >? 0) && _); [|done]. by destruct (count ds >? 0).
Qed.

Lemma count_nonneg ds : 0 <= count ds.
Proof. unfold count. lia. Qed.

End TimerEdges.

(** X6. A limit of zero or less is reached at once: the first tick fulfils
    the promise and stops the timer whatever the device list holds, even
    when it is empty, and whatever the timeout is. *)
Theorem nonpositive_limit_resolves_on_first_tick
    (ds : list IDevice) (o : IDiscoverConfig) (r : Run) :
  limit o <= 0 -> stage r = Polling -> promise r = Pending ->
  fire ds o r =
    {| stage := Idle; ts := ts r + interval; promise := Fulfilled ThisDevices |}.
Proof.
  intros Hl Hs Hp. unfold fire. rewrite Hs.
  apply tick_limit_reached_run; [done|].
  pose proof (count_nonneg ds). lia.
Qed.

Lemma nonpositive_limit_resolves_on_first_tick_witness :
  fire [] (mergeOptions defaultOptions (sampleOptions 0 1000)) armed =
    {| stage := Idle; ts := ts armed + interval; promise := Fulfilled ThisDevices |}.
Proof.
  apply (nonpositive_limit_resolves_on_first_tick []
           (mergeOptions defaultOptions (sampleOptions 0 1000)) armed);
    [vm_compute; discriminate | reflexivity | reflexivity].
Defined.

(** X7. A negative timeout acts like no timeout at all: as long as the
    limit is not reached, every tick only advances the counter, and after
    any number of ticks the run is still polling with its promise
    untouched. *)
Theorem negative_timeout_polls_on
    (dss : list (list IDevice)) (o : IDiscoverConfig) (r : Run) :
  timeout o < 0 -> stage r = Polling ->
  Forall (fun ds => count ds < limit o) dss ->
  poll dss o r = setTs (ts r + interval * Z.of_nat (length dss)) r /\
  stage (poll dss o r) = Polling /\
  promise (poll dss o r) = promise r.
Proof.
  intros Ht Hs Hall.
  rewrite poll_waits; [|done|done|left; lia].
  by cbn [setTs stage promise].
Qed.

Lemma negative_timeout_polls_on_witness :
  let o := mergeOptions defaultOptions (sampleOptions 2 (-1)) in
  let dss := [[]; [bulbA]; [bulbA]] in
  poll dss o armed = setTs (ts armed + interval * Z.of_nat (length dss)) armed /\
  stage (poll dss o armed) = Polling /\
  promise (poll dss o armed) = promise armed.
Proof.
  apply (negative_timeout_polls_on [[]; [bulbA]; [bulbA]]
           (mergeOptions defaultOptions (sampleOptions 2 (-1))) armed);
    [vm_compute; reflexivity | reflexivity | ].
  repeat constructor.
Defined.

(** ** More on the datagram handler *)

(** X8. A datagram that the parser does not recognise changes nothing of
    the engine but the log: the device list, the emissions, the runs and
    the socket are as before, and the text is logged exactly when the
    socket delivered it and [debug] is on. *)
Theorem unparsed_datagram_only_logged
    (parse : string -> option IDevice) (w : Discover) (s : Dgram.Socket)
    (message : string) :
  client w = Some s -> parse message = None ->
  let w' := step parse w (Message message) in
  devices w' = devices w /\
  emitted w' = emitted w /\
  runs w' = runs w /\
  client w' = client w /\
  listeners w' = listeners w /\
  logged w' = (if Dgram.receiving s && debug (options w)
               then logged w ++ [LoggerInfo message] else logged w).
Proof.
  intros Hc Hp. cbn zeta. cbn [step]. unfold onDatagram, onSocketMessage.
  rewrite Hc, Hp. destruct (Dgram.receiving s); [|done].
  by destruct (debug (options w)).
Qed.

Lemma unparsed_datagram_only_logged_witness :
  let w := exec sampleParser [CallStart; Listening; SendDone 0%nat None]
                (new_Discover Given.none) in
  exists s, client w = Some s /\
  let w' := step sampleParser w (Message EmptyString) in
  devices w' = devices w /\
  emitted w' = emitted w /\
  runs w' = runs w /\
  client w' = client w /\
  listeners w' = listeners w /\
  logged w' = (if Dgram.receiving s && debug (options w)
               then logged w ++ [LoggerInfo EmptyString] else logged w).
Proof.
  eexists. split; [reflexivity|].
  apply (unparsed_datagram_only_logged sampleParser
           (exec sampleParser [CallStart; Listening; SendDone 0%nat None]
                 (new_Discover Given.none)) _ EmptyString); reflexivity.
Defined.

(** X9. The options are fixed by the constructor: whatever happens to the
    engine, they remain the caller's object merged over the defaults. *)
Theorem options_fixed_for_life
    (parse : string -> option IDevice) (g : Given.t) (es : list Event) :
  options (exec parse es (new_Discover g)) = mergeOptions defaultOptions g.
Proof. by rewrite exec_options. Qed.

(** ** A whole discovery *)

Section Discovery.

Variable parse : string -> option IDevice.

Implicit Types (w : Discover) (s : Dgram.Socket).

(** A handled datagram that parses, spelled out. *)
Lemma step_message_parsed w s m d :
  client w = Some s -> Dgram.receiving s = true -> parse m = Some d ->
  devices (step parse w (Message m)) = fst (addDevice (devices w) d) /\
  emitted (step parse w (Message m)) = emitted w ++ [(d, listeners w)] /\
  runs (step parse w (Message m)) = runs w /\
  client (step parse w (Message m)) = Some s /\
  options (step parse w (Message m)) = options w.
Proof.
  intros Hc Hr Hp. cbn [step]. unfold onDatagram. rewrite Hc, Hr.
  unfold onSocketMessage. rewrite Hp.
  by destruct (debug (options w)).
Qed.

(** A burst of datagrams that all parse, on a bound and open socket. *)
Lemma exec_messages ms ds w s :
  client w = Some s -> Dgram.receiving s = true ->
  Forall2 (fun m d => parse m = Some d) ms ds ->
  devices (exec parse (Message <$> ms) w) = upsertAll (devices w) ds /\
  announced (exec parse (Message <$> ms) w) = announced w ++ ds /\
  runs (exec parse (Message <$> ms) w) = runs w /\
  client (exec parse (Message <$> ms) w) = Some s /\
  options (exec parse (Message <$> ms) w) = options w.
Proof.
  intros Hc Hr Hall. revert w Hc.
  induction Hall as [|m d ms ds Hp Hall IH]; intros w Hc.
  - cbn. by rewrite app_nil_r.
  - rewrite fmap_cons, exec_cons.
    destruct (step_message_parsed w s m d Hc Hr Hp) as (Hd & He & Hru & Hcl & Ho).
    destruct (IH _ Hcl) as (Hd' & He' & Hru' & Hcl' & Ho').
    rewrite Hd', He', Hru', Hcl', Ho'. repeat split; try congruence.
    + by rewrite Hd.
    + unfold announced. rewrite He, fmap_app. cbn. by rewrite <- app_assoc.
Qed.

(** The engine once the probe is out and its send callback reported
    success. *)
Lemma probe_phase (g : Given.t) :
  Dgram.validPort (port (mergeOptions defaultOptions g)) = true ->
  exec parse [CallStart; Listening; SendDone 0%nat None] (new_Discover g) =
    {| devices := [];
       options := mergeOptions defaultOptions g;
       client := Some {| Dgram.bindState := Dgram.BIND_STATE_BOUND;
                         Dgram.handle := true; Dgram.broadcast := true;
                         Dgram.closeListeners := []; Dgram.closeEmitted := false;
                         Dgram.sent := [probeOf (mergeOptions defaultOptions g)] |};
       listeners := []; runs := [armed]; destroys := []; emitted := [];
       logged := [] |}.
Proof.
  intros Hp. unfold new_Discover.
  set (o := mergeOptions defaultOptions g) in *. clearbody o.
  cbn [exec foldl step]. unfold onListening, start. cbn.
  unfold Dgram.send, Dgram.sendError. cbn. rewrite Hp. reflexivity.
Qed.

End Discovery.

(** X10. A whole successful discovery: on a fresh engine with a port that
    [send] accepts (1..65535), once the probe is sent, replies that all
    parse to devices with pairwise distinct identifiers, at least [limit]
    of them, arriving before the first tick, make that tick fulfil the
    promise of [start]; the array it hands out holds exactly those devices,
    in arrival order, each announced once. *)
Theorem discovery_resolves_with_distinct_replies
    (parse : string -> option IDevice) (g : Given.t)
    (ms : list string) (ds : list IDevice) :
  Dgram.validPort (port (mergeOptions defaultOptions g)) = true ->
  Forall2 (fun m d => parse m = Some d) ms ds ->
  NoDup (ids ds) ->
  limit (mergeOptions defaultOptions g) <= count ds ->
  let w := exec parse ([CallStart; Listening; SendDone 0%nat None]
                         ++ (Message <$> ms) ++ [Tick 0%nat])
                (new_Discover g) in
  runs w = [ {| stage := Idle; ts := 200; promise := Fulfilled ThisDevices |} ] /\
  deref w ThisDevices = ds /\
  announced w = ds.
Proof.
  intros Hport Hall Hnd Hl. cbn zeta. rewrite !exec_app.
  rewrite (probe_phase parse g Hport).
  set (w1 := {| devices := []; options := mergeOptions defaultOptions g |}).
  assert (exists s1, client w1 = Some s1 /\ Dgram.receiving s1 = true)
    as (s1 & Hc1 & Hr1) by (eexists; split; reflexivity).
  destruct (exec_messages parse ms ds w1 s1 Hc1 Hr1 Hall)
    as (Hd & Ha & Hru & Hcl & Ho).
  set (w2 := exec parse (Message <$> ms) w1) in *.
  change (devices w1) with (@nil IDevice) in Hd.
  change (announced w1) with (@nil IDevice) in Ha.
  change (runs w1) with [armed] in Hru.
  change (options w1) with (mergeOptions defaultOptions g) in Ho.
  rewrite (upsertAll_fresh_from ds []) in Hd by done. cbn [app] in Hd.
  cbn [exec foldl step]. unfold onTick. rewrite Hru. cbn [lookup list_lookup].
  cbn [setRuns runs devices deref announced emitted].
  rewrite Hd, Ho. unfold fire. cbn [stage armed].
  rewrite tick_limit_reached_run by done.
  split; [reflexivity|]. split; [reflexivity|exact Ha].
Qed.

Lemma discovery_resolves_with_distinct_replies_witness :
  let w := exec sampleParser
                ([CallStart; Listening; SendDone 0%nat None]
                   ++ (Message <$> ["abc"; "def"]) ++ [Tick 0%nat])
                (new_Discover (sampleOptions 2 1000)) in
  runs w = [ {| stage := Idle; ts := 200; promise := Fulfilled ThisDevices |} ] /\
  deref w ThisDevices =
    [ {| id := "abc"; location := "yeelight://192.168.1.10:55443"; model := "color" |};
      {| id := "def"; location := "yeelight://192.168.1.10:55443"; model := "color" |} ] /\
  announced w =
    [ {| id := "abc"; location := "yeelight://192.168.1.10:55443"; model := "color" |};
      {| id := "def"; location := "yeelight://192.168.1.10:55443"; model := "color" |} ].
Proof.
  apply (discovery_resolves_with_distinct_replies sampleParser (sampleOptions 2 1000)
           ["abc"; "def"]
           [ {| id := "abc"; location := "yeelight://192.168.1.10:55443";
                model := "color" |};
             {| id := "def"; location := "yeelight://192.168.1.10:55443";
                model := "color" |} ]).
  - reflexivity.
  - repeat constructor.
  - cbn. repeat constructor.
    + intros H. apply list_elem_of_singleton in H. discriminate.
    + apply not_elem_of_nil.
  - vm_compute. discriminate.
Defined.

(** ** What holds of every run *)

Section RunInvariant.

Variable parse : string -> option IDevice.

Implicit Types (w : Discover) (e : Event) (es : list Event) (r : Run).

Lemma runOk_ext w w' r :
  options w' = options w ->
  count (devices w) <= count (devices w') ->
  runOk w r -> runOk w' r.
Proof.
  intros Ho Hc (Hk & Hs & Hrej & Hful). unfold runOk. rewrite Ho.
  repeat split; try done.
  - by apply (Hrej s).
  - by apply (Hrej s).
  - by apply (Hrej s).
  - by apply (Hful a).
  - destruct (Hful a H) as [_ [?|?]]; [left|right]; lia.
Qed.

Lemma runOk_pending w s t :
  (exists k, 0 <= k /\ t = interval * k) ->
  runOk w {| stage := s; ts := t; promise := Pending |}.
Proof. intros Hk. unfold runOk. cbn. repeat split; done. Qed.

Lemma runOk_rejected_err w t (err : JsError) :
  (exists k, 0 <= k /\ t = interval * k) ->
  runOk w {| stage := Idle; ts := t; promise := Rejected (Err err) |}.
Proof. intros Hk. unfold runOk. cbn. repeat split; done. Qed.

Lemma runOk_stage_pending w r :
  runOk w r -> stage r <> Idle -> promise r = Pending.
Proof.
  intros (_ & Hs & _) Hne. destruct (promise r); [done| |];
    exfalso; apply Hne; by apply Hs.
Qed.

Lemma runOk_setStage w r s :
  runOk w r -> stage r <> Idle -> runOk w (setStage s r).
Proof.
  intros H Hne. pose proof (runOk_stage_pending w r H Hne) as Hp.
  destruct H as (Hk & _). destruct r as [s0 t p]. cbn in *. subst p.
  by apply runOk_pending.
Qed.

Lemma runOk_afterListening w r (thrown : option JsError) :
  runOk w r -> runOk w (afterListening thrown r).
Proof.
  intros H. unfold afterListening. destruct (stage r) eqn:E; try done.
  apply runOk_setStage; [done|]. by rewrite E.
Qed.

Lemma runOk_dropBindCallback w r : runOk w r -> runOk w (dropBindCallback r).
Proof.
  intros H. unfold dropBindCallback. destruct (stage r) eqn:E; try done.
  apply runOk_setStage; [done|]. by rewrite E.
Qed.

Lemma runOk_fire w r :
  runOk w r -> runOk w (fire (devices w) (options w) r).
Proof.
  intros H. unfold fire. destruct (stage r) eqn:Es; try done.
  assert (promise r = Pending) as Hp
    by (apply (runOk_stage_pending w r H); by rewrite Es).
  destruct H as ((k & Hk0 & Hk) & _).
  assert (exists k', 0 <= k' /\ ts r + interval = interval * k') as Hk'
    by (exists (k + 1); lia).
  assert (0 < ts r + interval) as Hpos by (unfold interval in *; lia).
  destruct (Z.le_gt_cases (limit (options w)) (count (devices w))) as [Hl|Hl].
  - rewrite tick_limit_reached_run by done.
    unfold runOk. cbn. repeat split; try done. by left.
  - unfold tick. rewrite checkLimit_below by done.
    destruct (Z.le_gt_cases (timeout (options w)) 0) as [Ht|Ht].
    { rewrite checkTimeout_quiet by (by left).
      destruct r as [s0 t p]. cbn in *. subst. by apply runOk_pending. }
    destruct (Z.le_gt_cases (ts r + interval) (timeout (options w))) as [Hq|Hq].
    { rewrite checkTimeout_quiet by (by right).
      destruct r as [s0 t p]. cbn in *. subst. by apply runOk_pending. }
    rewrite checkTimeout_expired by (cbn; lia).
    cbn [setTs ts promise]. rewrite Hp.
    destruct (count (devices w) >? 0) eqn:Ec; unfold runOk; cbn.
    + apply Z.gtb_lt in Ec. repeat split; try done. by right.
    + repeat split; try done. congruence.
Qed.

(** Every step keeps every run in order. *)
Lemma step_runOk w e :
  Forall (runOk w) (runs w) ->
  Forall (runOk (step parse w e)) (runs (step parse w e)).
Proof.
  intros Hall.
  assert (exists k, 0 <= k /\ 0 = interval * k) as Hzero by (exists 0; lia).
  assert (forall w', options w' = options w ->
                     count (devices w) <= count (devices w') ->
                     Forall (runOk w') (runs w)) as Hext.
  { intros w' Ho Hc. eapply Forall_impl; [exact Hall|].
    intros r. by apply runOk_ext. }
  destruct e as [| |l| | |i err|i|message|]; cbn [step].
  - unfold start. destruct (client w) as [s|].
    + destruct (Dgram.bind s); cbn [addRun setRuns setClient runs];
        apply Forall_app; (split; [by apply Hext|]);
        apply Forall_singleton;
        [by apply runOk_rejected_err | by apply runOk_pending].
    + cbn [addRun setRuns runs]. apply Forall_app. split; [by apply Hext|].
      apply Forall_singleton. by apply runOk_rejected_err.
  - unfold destroy. destruct (client w) as [s|]; by apply Hext.
  - by apply Hext.
  - unfold onListening. destruct (client w) as [s|]; [|done].
    destruct (Dgram.handle s), (Dgram.bindState s); try done.
    pose proof (bindCallbacks_runs (options w) (runs w)
                  (Dgram.withBindState Dgram.BIND_STATE_BOUND s)) as Hr.
    destruct (bindCallbacks _ _ _) as [[rs s'] th]. cbn [fst] in Hr. subst rs.
    cbn [setRuns runs]. change map with (@fmap list _).
    apply Forall_fmap. eapply Forall_impl; [by apply Hext|].
    intros r Hr. by apply runOk_afterListening.
  - unfold onBindError. destruct (client w) as [s|]; [|done].
    destruct (Dgram.handle s), (Dgram.bindState s); try done.
    cbn [setRuns runs]. change map with (@fmap list _).
    apply Forall_fmap. eapply Forall_impl; [by apply Hext|].
    intros r Hr. by apply runOk_dropBindCallback.
  - unfold sendCallback. destruct (runs w !! i) as [r|] eqn:Ei; [|done].
    destruct (stage r) eqn:Es; try done.
    assert (runOk w r) as Hr by (by eapply Forall_lookup_1).
    assert (promise r = Pending) as Hp
      by (apply (runOk_stage_pending w r Hr); by rewrite Es).
    destruct Hr as (Hk & _).
    destruct err as [e|]; cbn [setRuns runs addLog].
    + apply Forall_insert; [by apply Hext|].
      rewrite Hp. cbn. by apply runOk_rejected_err.
    + apply Forall_insert; [by apply Hext|].
      destruct r as [s0 t p]. cbn in *. subst. by apply runOk_pending.
  - unfold onTick. destruct (runs w !! i) as [r|] eqn:Ei; [|done].
    cbn [setRuns runs]. apply Forall_insert; [by apply Hext|].
    apply (runOk_ext w); [done|done|].
    apply runOk_fire. by eapply Forall_lookup_1.
  - assert (runs (onDatagram parse message w) = runs w) as ->.
    { unfold onDatagram, onSocketMessage. destruct (client w) as [s|]; [|done].
      destruct (Dgram.receiving s); [|done].
      by destruct (parse message), (debug (options w)). }
    apply Hext;
      [apply (step_options parse w (Message message))
      |apply (step_count parse w (Message message))].
  - unfold onClose. destruct (client w) as [s|]; [|done].
    destruct (negb (Dgram.handle s) && negb (Dgram.closeEmitted s)); by apply Hext.
Qed.

Lemma exec_runOk es w :
  Forall (runOk w) (runs w) ->
  Forall (runOk (exec parse es w)) (runs (exec parse es w)).
Proof.
  revert w. induction es as [|e es IH]; intros w H; [done|].
  rewrite exec_cons. apply IH. by apply step_runOk.
Qed.

Lemma reachable_runOk g es :
  Forall (runOk (exec parse es (new_Discover g)))
         (runs (exec parse es (new_Discover g))).
Proof. apply exec_runOk. cbn. apply Forall_nil_2. Qed.

(** A run with nothing scheduled never changes again. *)
Lemma exec_idle_frozen es w i r :
  runs w !! i = Some r -> stage r = Idle ->
  runs (exec parse es w) !! i = Some r.
Proof.
  revert w. induction es as [|e es IH]; intros w Hi Hs; [done|].
  rewrite exec_cons. apply IH; [|done].
  rewrite (step_run parse w e i r Hi) by (by right).
  destruct e; try done. destruct (decide _); [|done].
  unfold fire. by rewrite Hs.
Qed.

End RunInvariant.

(** X11. The outcome of [start] is final: on an engine built by the
    constructor, once the promise of a run is settled its interval timer is
    cleared, and whatever happens afterwards (ticks, datagrams, further
    calls of [start] or [destroy]) the run stays exactly as it is. *)
Theorem settled_run_is_final
    (parse : string -> option IDevice) (g : Given.t) (es1 es2 : list Event)
    (i : nat) (r : Run) :
  runs (exec parse es1 (new_Discover g)) !! i = Some r ->
  settled (promise r) = true ->
  stage r = Idle /\
  runs (exec parse (es1 ++ es2) (new_Discover g)) !! i = Some r.
Proof.
  intros Hi Hs.
  pose proof (reachable_runOk parse g es1) as Hall.
  pose proof (Forall_lookup_1 _ _ _ _ Hall Hi) as (_ & Hidle & _).
  split; [by apply Hidle|].
  rewrite exec_app. apply exec_idle_frozen; [done|by apply Hidle].
Qed.

Lemma settled_run_is_final_witness :
  let r := {| stage := Idle; ts := 200; promise := Fulfilled ThisDevices |} in
  stage r = Idle /\
  runs (exec sampleParser
          ([CallStart; Listening; SendDone 0%nat None; Message "abc"; Tick 0%nat]
             ++ [Tick 0%nat; Message "def"; CallStart; CallDestroy; Tick 0%nat])
          (new_Discover (sampleOptions 1 200))) !! 0%nat = Some r.
Proof.
  apply (settled_run_is_final sampleParser (sampleOptions 1 200)
           [CallStart; Listening; SendDone 0%nat None; Message "abc"; Tick 0%nat]
           [Tick 0%nat; Message "def"; CallStart; CallDestroy; Tick 0%nat]
           0%nat {| stage := Idle; ts := 200; promise := Fulfilled ThisDevices |});
    reflexivity.
Defined.

(** X12. Whenever [start] is rejected with a text, on an engine built by
    the constructor, the text is the no-device message followed by the tick
    counter [ts] of that run; the counter is a positive multiple of 200 and
    strictly greater than the configured timeout, which is positive; and
    the timer of the run is cleared. *)
Theorem rejection_text_reports_exceeded_timeout
    (parse : string -> option IDevice) (g : Given.t) (es : list Event)
    (i : nat) (r : Run) (s : string) :
  runs (exec parse es (new_Discover g)) !! i = Some r ->
  promise r = Rejected (Text s) ->
  s = "No device found after timeout exceeded : " +:+ numberToString (ts r) /\
  (exists k, 0 < k /\ ts r = 200 * k) /\
  0 < timeout (mergeOptions defaultOptions g) /\
  timeout (mergeOptions defaultOptions g) < ts r /\
  stage r = Idle.
Proof.
  intros Hi Hp.
  pose proof (reachable_runOk parse g es) as Hall.
  pose proof (Forall_lookup_1 _ _ _ _ Hall Hi)
    as ((k & Hk0 & Hk) & Hidle & Hrej & _).
  destruct (Hrej s Hp) as (Ht & Hlt & ->).
  rewrite exec_options in Ht, Hlt. cbn [new_Discover options] in Ht, Hlt.
  split; [reflexivity|]. split.
  - exists k. unfold interval in *. split; [lia|done].
  - split; [done|]. split; [done|]. apply Hidle. by rewrite Hp.
Qed.

Lemma rejection_text_reports_exceeded_timeout_witness :
  let r := {| stage := Idle; ts := 400;
              promise := Rejected (Text "No device found after timeout exceeded : 400") |} in
  "No device found after timeout exceeded : 400" =
    "No device found after timeout exceeded : " +:+ numberToString (ts r) /\
  (exists k, 0 < k /\ ts r = 200 * k) /\
  0 < timeout (mergeOptions defaultOptions (sampleOptions 1 200)) /\
  timeout (mergeOptions defaultOptions (sampleOptions 1 200)) < ts r /\
  stage r = Idle.
Proof.
  apply (rejection_text_reports_exceeded_timeout sampleParser (sampleOptions 1 200)
           [CallStart; Listening; SendDone 0%nat None; Tick 0%nat; Tick 0%nat]
           0%nat
           {| stage := Idle; ts := 400;
              promise := Rejected (Text "No device found after timeout exceeded : 400") |});
    reflexivity.
Defined.

(** X13. With a limit of at least 1, a fulfilled [start] never hands out an
    empty array: on an engine built by the constructor, whenever the
    promise of a run is fulfilled, at least one tick has passed, the timer
    is cleared, and the device list the promise refers to is not empty,
    then and at any later time. *)
Theorem fulfilled_start_has_devices
    (parse : string -> option IDevice) (g : Given.t) (es : list Event)
    (i : nat) (r : Run) (a : ArrayRef) :
  1 <= limit (mergeOptions defaultOptions g) ->
  runs (exec parse es (new_Discover g)) !! i = Some r ->
  promise r = Fulfilled a ->
  0 < count (deref (exec parse es (new_Discover g)) a) /\
  stage r = Idle /\ 0 < ts r.
Proof.
  intros Hl Hi Hp.
  pose proof (reachable_runOk parse g es) as Hall.
  pose proof (Forall_lookup_1 _ _ _ _ Hall Hi) as (_ & Hidle & _ & Hful).
  destruct (Hful a Hp) as (Hts & Hcount).
  rewrite exec_options in Hcount. cbn [new_Discover options] in Hcount.
  split; [|split; [apply Hidle; by rewrite Hp|done]].
  destruct a. cbn [deref]. lia.
Qed.

Lemma fulfilled_start_has_devices_witness :
  let w := exec sampleParser
                [CallStart; Listening; SendDone 0%nat None; Message "abc";
                 Tick 0%nat; Tick 0%nat]
                (new_Discover (sampleOptions 2 200)) in
  let r := {| stage := Idle; ts := 400; promise := Fulfilled ThisDevices |} in
  0 < count (deref w ThisDevices) /\ stage r = Idle /\ 0 < ts r.
Proof.
  apply (fulfilled_start_has_devices sampleParser (sampleOptions 2 200)
           [CallStart; Listening; SendDone 0%nat None; Message "abc";
            Tick 0%nat; Tick 0%nat]
           0%nat {| stage := Idle; ts := 400; promise := Fulfilled ThisDevices |}
           ThisDevices);
    [vm_compute; discriminate | reflexivity | reflexivity].
Defined.

(** ** Devices and announcements *)

Section Announcements.

Variable parse : string -> option IDevice.

Implicit Types (w : Discover) (e : Event) (es : list Event).

Lemma addDevice_elem (ds : list IDevice) (d x : IDevice) :
  x ∈ fst (addDevice ds d) -> x ∈ ds \/ x = d.
Proof.
  destruct (addDevice_cases ds d) as [[-> _]|(k & Hk & _ & ->)]; cbn [fst].
  - intros H. apply elem_of_app in H as [H|H]; [by left|right].
    by apply list_elem_of_singleton in H.
  - intros H. apply list_elem_of_lookup in H as [j Hj].
    destruct (decide (k = j)) as [->|Hne].
    + rewrite list_lookup_insert_eq in Hj by lia. right. congruence.
    + rewrite list_lookup_insert_ne in Hj by done. left.
      apply list_elem_of_lookup. by exists j.
Qed.

Lemma addDevice_length_le (ds : list IDevice) (d : IDevice) :
  (length (fst (addDevice ds d)) <= S (length ds))%nat.
Proof.
  destruct (addDevice_cases ds d) as [[-> _]|(k & _ & _ & ->)]; cbn [fst].
  - rewrite length_app. cbn. lia.
  - rewrite length_insert. lia.
Qed.

(** The device list and the emissions change together, and only through a
    handled datagram. *)
Lemma step_devices_emitted w e :
  (devices (step parse w e) = devices w /\ emitted (step parse w e) = emitted w) \/
  (exists d, devices (step parse w e) = fst (addDevice (devices w) d) /\
             emitted (step parse w e) = emitted w ++ [(d, listeners w)]).
Proof.
  destruct e as [| |l| | |i err|i|message|]; cbn [step].
  - left. unfold start. destruct (client w) as [s|]; [|done].
    by destruct (Dgram.bind s).
  - left. unfold destroy. by destruct (client w).
  - by left.
  - left. unfold onListening. destruct (client w) as [s|]; [|done].
    destruct (Dgram.handle s), (Dgram.bindState s); try done.
    by destruct (bindCallbacks _ _ _) as [[? ?] ?].
  - left. unfold onBindError. destruct (client w) as [s|]; [|done].
    by destruct (Dgram.handle s), (Dgram.bindState s).
  - left. unfold sendCallback. destruct (runs w !! i) as [r|]; [|done].
    destruct (stage r); try done. by destruct err.
  - left. unfold onTick. by destruct (runs w !! i).
  - unfold onDatagram, onSocketMessage. destruct (client w) as [s|]; [|by left].
    destruct (Dgram.receiving s); [|by left].
    destruct (parse message) as [d|]; destruct (debug (options w));
      first [by left | right; by exists d].
  - left. unfold onClose. destruct (client w) as [s|]; [|done].
    by destruct (negb (Dgram.handle s) && negb (Dgram.closeEmitted s)).
Qed.

Lemma step_announced w e :
  (forall d, d ∈ devices w -> d ∈ announced w) /\
  (length (devices w) <= length (emitted w))%nat ->
  (forall d, d ∈ devices (step parse w e) -> d ∈ announced (step parse w e)) /\
  (length (devices (step parse w e)) <= length (emitted (step parse w e)))%nat.
Proof.
  intros [Hin Hlen]. unfold announced in *.
  destruct (step_devices_emitted w e) as [[-> ->]|(d & -> & ->)]; [done|].
  split.
  - intros x Hx. rewrite fmap_app. apply elem_of_app.
    apply addDevice_elem in Hx as [Hx| ->]; [left; by apply Hin|right].
    cbn. by apply list_elem_of_singleton.
  - rewrite length_app. cbn [length].
    pose proof (addDevice_length_le (devices w) d). lia.
Qed.

End Announcements.

(** X14. Every device in the list has been announced: on an engine built
    by the constructor, each record of the device list was carried by a
    [deviceAdded] emission, and there are at least as many emissions as
    records. *)
Theorem every_device_was_announced
    (parse : string -> option IDevice) (g : Given.t) (es : list Event) :
  (forall d, d ∈ devices (exec parse es (new_Discover g)) ->
             d ∈ announced (exec parse es (new_Discover g))) /\
  (length (devices (exec parse es (new_Discover g)))
   <= length (emitted (exec parse es (new_Discover g))))%nat.
Proof.
  assert (forall w,
    (forall d, d ∈ devices w -> d ∈ announced w) /\
    (length (devices w) <= length (emitted w))%nat ->
    (forall d, d ∈ devices (exec parse es w) -> d ∈ announced (exec parse es w)) /\
    (length (devices (exec parse es w)) <= length (emitted (exec parse es w)))%nat)
    as Hgen.
  { induction es as [|e es' IH]; intros w H; [done|].
    rewrite exec_cons. apply IH. by apply step_announced. }
  apply Hgen. cbn. split; [|lia].
  intros d Hd. by apply elem_of_nil in Hd.
Qed.

(** ** The first [destroy] *)

Section FirstDestroy.

Variable parse : string -> option IDevice.

Implicit Types (w : Discover) (e : Event) (es : list Event) (s : Dgram.Socket).

(** As long as [destroy] was not called the socket is open, nobody waits
    for its close event, and no [destroy] promise exists. *)
Lemma step_undestroyed w e s :
  client w = Some s -> Dgram.handle s = true ->
  Dgram.closeListeners s = [] -> Dgram.closeEmitted s = false ->
  destroys w = [] -> e <> CallDestroy ->
  exists s', client (step parse w e) = Some s' /\ Dgram.handle s' = true /\
             Dgram.closeListeners s' = [] /\ Dgram.closeEmitted s' = false /\
             destroys (step parse w e) = [].
Proof.
  intros Hc Hh Hl Hce Hd Hne.
  assert (exists s', client w = Some s' /\ Dgram.handle s' = true /\
                     Dgram.closeListeners s' = [] /\ Dgram.closeEmitted s' = false /\
                     destroys w = []) as Hsame by (by exists s).
  destruct e as [| |l| | |i err|i|message|]; cbn [step]; try done.
  - unfold start, Dgram.bind, Dgram.healthCheck. rewrite Hc, Hh.
    destruct (Dgram.isUnbound s); [|exact Hsame]. by eexists.
  - unfold onListening. rewrite Hc, Hh.
    destruct (Dgram.bindState s); try exact Hsame.
    pose proof (bindCallbacks_socket (options w) (runs w)
                  (Dgram.withBindState Dgram.BIND_STATE_BOUND s))
      as (Hh' & _ & Hl' & Hce').
    destruct (bindCallbacks _ _ _) as [[rs s'] th]. cbn [fst snd] in *.
    exists s'. split; [reflexivity|]. by rewrite Hh', Hl', Hce'.
  - unfold onBindError. rewrite Hc, Hh.
    destruct (Dgram.bindState s); try exact Hsame. by eexists.
  - unfold sendCallback. destruct (runs w !! i) as [r|]; [|exact Hsame].
    destruct (stage r); try exact Hsame. destruct err; exact Hsame.
  - unfold onTick. destruct (runs w !! i); exact Hsame.
  - unfold onDatagram, onSocketMessage. rewrite Hc.
    destruct (Dgram.receiving s); [|exact Hsame].
    destruct (parse message), (debug (options w)); exact Hsame.
  - unfold onClose. rewrite Hc, Hh. exact Hsame.
Qed.

Lemma exec_undestroyed es w s :
  client w = Some s -> Dgram.handle s = true ->
  Dgram.closeListeners s = [] -> Dgram.closeEmitted s = false ->
  destroys w = [] -> CallDestroy ∉ es ->
  exists s', client (exec parse es w) = Some s' /\ Dgram.handle s' = true /\
             Dgram.closeListeners s' = [] /\ Dgram.closeEmitted s' = false /\
             destroys (exec parse es w) = [].
Proof.
  revert w s. induction es as [|e es IH]; intros w s Hc Hh Hl Hce Hd Hnot.
  - by exists s.
  - apply not_elem_of_cons in Hnot as [Hne Hnot]. rewrite exec_cons.
    destruct (step_undestroyed w e s Hc Hh Hl Hce Hd)
      as (s1 & Hc1 & Hh1 & Hl1 & Hce1 & Hd1); [congruence|].
    by apply (IH _ s1).
Qed.

End FirstDestroy.

(** X15. The first [destroy] succeeds at any moment: on an engine built by
    the constructor, whatever happened before short of a [destroy] (so
    before [start], while it is pending, or after it settled), the promise
    of [destroy] is pending until the close event of the socket and
    fulfilled by it; the event listeners are removed, and the runs of
    [start] are not touched. *)
Theorem first_destroy_fulfils
    (parse : string -> option IDevice) (g : Given.t) (es : list Event) :
  CallDestroy ∉ es ->
  let w := exec parse es (new_Discover g) in
  destroys (exec parse [CallDestroy] w) = [Pending] /\
  listeners (exec parse [CallDestroy] w) = [] /\
  destroys (exec parse [CallDestroy; CloseEvent] w) = [Fulfilled tt] /\
  runs (exec parse [CallDestroy; CloseEvent] w) = runs w.
Proof.
  intros Hnot. cbn zeta.
  destruct (exec_undestroyed parse es (new_Discover g) Dgram.createSocket)
    as (s & Hc & Hh & Hl & Hce & Hd); try done.
  cbn [exec foldl step]. unfold onClose, destroy.
  rewrite Hc. unfold Dgram.close, Dgram.healthCheck. rewrite Hh, Hd, Hl.
  cbn. rewrite Hce, Hd. cbn. done.
Qed.

Lemma first_destroy_fulfils_witness :
  let w := exec sampleParser [CallStart; Listening; SendDone 0%nat None; Tick 0%nat]
                (new_Discover (sampleOptions 1 1000)) in
  destroys (exec sampleParser [CallDestroy] w) = [Pending] /\
  listeners (exec sampleParser [CallDestroy] w) = [] /\
  destroys (exec sampleParser [CallDestroy; CloseEvent] w) = [Fulfilled tt] /\
  runs (exec sampleParser [CallDestroy; CloseEvent] w) = runs w.
Proof.
  apply (first_destroy_fulfils sampleParser (sampleOptions 1 1000)
           [CallStart; Listening; SendDone 0%nat None; Tick 0%nat]).
  rewrite !not_elem_of_cons. repeat split; try discriminate.
  apply not_elem_of_nil.
Defined.

(** ** The probe *)

Section Probe.

Variable parse : string -> option IDevice.

Implicit Types (w : Discover) (e : Event) (es : list Event)
  (s : Dgram.Socket) (r : Run) (rs : list Run).

Lemma awaitingBind_app rs1 rs2 :
  awaitingBind (rs1 ++ rs2) = (awaitingBind rs1 + awaitingBind rs2)%nat.
Proof.
  induction rs1 as [|r rs1 IH]; cbn [app awaitingBind]; [done|].
  destruct (stage r); lia.
Qed.

Lemma awaitingBind_afterListening rs (thrown : option JsError) :
  awaitingBind (map (afterListening thrown) rs) = 0%nat.
Proof.
  induction rs as [|r rs IH]; cbn [map awaitingBind]; [done|].
  unfold afterListening at 1.
  by destruct (stage r) eqn:E, thrown; cbn; rewrite ?E.
Qed.

Lemma awaitingBind_dropBindCallback rs :
  awaitingBind (map dropBindCallback rs) = 0%nat.
Proof.
  induction rs as [|r rs IH]; cbn [map awaitingBind]; [done|].
  unfold dropBindCallback at 1. by destruct (stage r) eqn:E; cbn; rewrite ?E.
Qed.

Lemma awaitingBind_insert rs i r r' :
  rs !! i = Some r ->
  stage r <> AwaitListening -> stage r' <> AwaitListening ->
  awaitingBind (<[i := r']> rs) = awaitingBind rs.
Proof.
  revert i. induction rs as [|x rs IH]; intros i Hi Hr Hr'; [done|].
  destruct i as [|i].
  - cbn in Hi |- *. injection Hi as ->. by destruct (stage r), (stage r').
  - change ((x :: rs) !! S i) with (rs !! i) in Hi.
    change (<[S i := r']> (x :: rs)) with (x :: <[i := r']> rs).
    cbn [awaitingBind]. by rewrite (IH i).
Qed.

Lemma tick_stage ds o r :
  stage (tick ds o r) = stage r \/ stage (tick ds o r) = Idle.
Proof.
  unfold tick, checkTimeout, checkLimit.
  destruct (count ds >=? limit o); cbn [ts setTs setPromise clearInterval setStage];
    destruct ((timeout o >? 0) && _); try destruct (count ds >? 0); cbn; auto.
Qed.

Lemma fire_not_awaiting ds o r :
  stage r <> AwaitListening -> stage (fire ds o r) <> AwaitListening.
Proof.
  intros Hne. unfold fire. destruct (stage r) eqn:E; try by rewrite E.
  destruct (tick_stage ds o r) as [H|H]; rewrite H; [by rewrite E|done].
Qed.

(** What the bind callbacks send. *)
Lemma bindCallbacks_sent o rs s :
  Dgram.sent (bindCallbacks o rs s).1.2 =
    Dgram.sent s ++
      match Dgram.sendError (probeOf o) s with
      | None => replicate (awaitingBind rs) (probeOf o)
      | Some _ => []
      end /\
  Dgram.broadcast (bindCallbacks o rs s).1.2 =
    Dgram.broadcast s || negb (Nat.eqb (awaitingBind rs) 0).
Proof.
  revert s. induction rs as [|r rs IH]; intros s; cbn [bindCallbacks awaitingBind].
  - cbn. rewrite orb_false_r. by destruct (Dgram.sendError _ _); rewrite app_nil_r.
  - destruct (stage r).
    + fold (probeOf o).
      destruct (Dgram.send (probeOf o) (Dgram.setBroadcast true s)) as [x|s1] eqn:Es.
      * apply send_thrown in Es.
        rewrite (sendError_handle _ _ s) in Es by done.
        specialize (IH (Dgram.setBroadcast true s)).
        rewrite (sendError_handle _ _ s) in IH by done. rewrite Es in IH |- *.
        destruct (bindCallbacks o rs _) as [[rs' s2] th].
        cbn [fst snd] in *. destruct IH as [-> ->]. cbn.
        split; [done | by rewrite orb_true_r].
      * apply send_accepted in Es as (Hn & Hh & _ & _ & _ & Hbr & Hsent).
        rewrite (sendError_handle _ _ s) in Hn by done.
        specialize (IH s1).
        rewrite (sendError_handle _ s1 s) in IH by done. rewrite Hn in IH |- *.
        destruct (bindCallbacks o rs s1) as [[rs' s2] th].
        cbn [fst snd] in *. destruct IH as [-> ->]. rewrite Hsent, Hbr. cbn.
        split; [by rewrite <- app_assoc | by rewrite orb_true_r].
    + specialize (IH s). by destruct (bindCallbacks o rs s) as [[rs' s2] th].
    + specialize (IH s). by destruct (bindCallbacks o rs s) as [[rs' s2] th].
    + specialize (IH s). by destruct (bindCallbacks o rs s) as [[rs' s2] th].
Qed.

Lemma probeInv_ext w w' :
  client w' = client w -> runs w' = runs w -> options w' = options w ->
  probeInv w -> probeInv w'.
Proof.
  intros Hc Hr Ho (s & Hs & H). exists s. rewrite Hc, Hr, Ho. by split.
Qed.

Lemma step_probeInv w e : probeInv w -> probeInv (step parse w e).
Proof.
  intros Hinv. pose proof Hinv as (s & Hc & H).
  destruct e as [| |l| | |i err|i|message|]; cbn [step].
  - unfold start, Dgram.bind, Dgram.healthCheck. rewrite Hc.
    assert (probeInv (addRun {| stage := Idle; ts := 0;
                                promise := Rejected (Err ERR_SOCKET_DGRAM_NOT_RUNNING) |} w)
            /\ probeInv (addRun {| stage := Idle; ts := 0;
                                   promise := Rejected (Err ERR_SOCKET_ALREADY_BOUND) |} w))
      as [Hnr Hab].
    { split; exists s; (split; [exact Hc|]); cbn [addRun setRuns runs options];
        rewrite awaitingBind_app; cbn [awaitingBind stage]; by rewrite Nat.add_0_r. }
    destruct (Dgram.handle s); [|exact Hnr].
    unfold Dgram.isUnbound. destruct (Dgram.bindState s) eqn:Hb; try exact Hab.
    eexists. split; [reflexivity|]. cbn. rewrite awaitingBind_app. cbn.
    destruct H as [-> ->]. split; [done|lia].
  - unfold destroy. rewrite Hc. cbn. eexists. split; [reflexivity|]. exact H.
  - by apply (probeInv_ext w).
  - unfold onListening. rewrite Hc.
    destruct (Dgram.handle s); [|exact Hinv].
    destruct (Dgram.bindState s) eqn:Hb; try exact Hinv.
    destruct H as [Hsent Haw].
    pose proof (bindCallbacks_socket (options w) (runs w)
                  (Dgram.withBindState Dgram.BIND_STATE_BOUND s)) as (_ & Hb' & _).
    pose proof (bindCallbacks_sent (options w) (runs w)
                  (Dgram.withBindState Dgram.BIND_STATE_BOUND s)) as [Hs' Hbr'].
    pose proof (bindCallbacks_runs (options w) (runs w)
                  (Dgram.withBindState Dgram.BIND_STATE_BOUND s)) as Hr'.
    destruct (bindCallbacks _ _ _) as [[rs s'] th]. cbn [fst snd] in *. subst rs.
    exists s'. split; [reflexivity|]. rewrite Hb'. cbn.
    split; [apply awaitingBind_afterListening|].
    rewrite Hs', Hbr'. cbn [Dgram.withBindState Dgram.sent Dgram.broadcast].
    rewrite Hsent.
    destruct (Dgram.sendError _ _); [by left|].
    destruct (awaitingBind (runs w)) as [|[|n]]; [by left| |lia].
    right. cbn. split; [done|apply orb_true_r].
  - unfold onBindError. rewrite Hc.
    destruct (Dgram.handle s); [|exact Hinv].
    destruct (Dgram.bindState s) eqn:Hb; try exact Hinv.
    destruct H as [Hsent Haw].
    eexists. split; [reflexivity|]. cbn.
    split; [done|apply awaitingBind_dropBindCallback].
  - unfold sendCallback. destruct (runs w !! i) as [r|] eqn:Ei; [|exact Hinv].
    destruct (stage r) eqn:Es; try exact Hinv.
    destruct err as [x|]; exists s; (split; [exact Hc|]);
      cbn [setRuns addLog runs options];
      rewrite (awaitingBind_insert _ i r) by (done || by rewrite Es);
      exact H.
  - unfold onTick. destruct (runs w !! i) as [r|] eqn:Ei; [|exact Hinv].
    exists s. split; [exact Hc|]. cbn [setRuns runs options].
    assert (stage r = AwaitListening \/ stage r <> AwaitListening) as [Ea|Ea]
      by (destruct (stage r); auto).
    + unfold fire. rewrite Ea. by rewrite list_insert_id.
    + rewrite (awaitingBind_insert _ i r); [exact H|done|done|].
      by apply fire_not_awaiting.
  - apply (probeInv_ext w); [| |apply (step_options parse w (Message message))|done].
    + unfold onDatagram, onSocketMessage. rewrite Hc.
      destruct (Dgram.receiving s); [|done].
      by destruct (parse message), (debug (options w)).
    + unfold onDatagram, onSocketMessage. rewrite Hc.
      destruct (Dgram.receiving s); [|done].
      by destruct (parse message), (debug (options w)).
  - unfold onClose. rewrite Hc.
    destruct (negb (Dgram.handle s) && negb (Dgram.closeEmitted s)); [|exact Hinv].
    eexists. split; [reflexivity|]. exact H.
Qed.

Lemma exec_probeInv es w : probeInv w -> probeInv (exec parse es w).
Proof.
  revert w. induction es as [|e es IH]; intros w H; [done|].
  rewrite exec_cons. apply IH. by apply step_probeInv.
Qed.

End Probe.

(** X16. The probe is sent at most once and never again: on an engine
    built by the constructor, whatever happens (further calls of [start],
    failed binds, ticks, datagrams, [destroy]), the socket has sent either
    nothing or exactly one datagram, the fixed search request addressed to
    the configured port and multicast host, and then with the broadcast
    flag set. *)
Theorem probe_sent_at_most_once
    (parse : string -> option IDevice) (g : Given.t) (es : list Event) :
  exists s, client (exec parse es (new_Discover g)) = Some s /\
    (Dgram.sent s = [] \/
     (Dgram.sent s = [ {| Dgram.payload := getMessage;
                          Dgram.port := port (mergeOptions defaultOptions g);
                          Dgram.address := multicastHost (mergeOptions defaultOptions g) |} ] /\
      Dgram.broadcast s = true)).
Proof.
  assert (probeInv (new_Discover g)) as Hinit.
  { eexists. split; [reflexivity|]. by cbn. }
  destruct (exec_probeInv parse es _ Hinit) as (s & Hc & H).
  exists s. split; [exact Hc|].
  rewrite exec_options in H. cbn [new_Discover options] in H.
  destruct (Dgram.bindState s).
  - left. by destruct H.
  - left. by destruct H.
  - by destruct H as [_ H].
Qed.

(** ** Getting past [bind] *)

Section PastBind.

Variable parse : string -> option IDevice.

Implicit Types (w : Discover) (e : Event) (es : list Event)
  (s : Dgram.Socket) (r : Run).

Lemma exec_receiving es w s :
  client w = Some s -> Dgram.receiving s = true -> CallDestroy ∉ es ->
  client (exec parse es w) = Some s.
Proof.
  revert w. induction es as [|e es IH]; intros w Hc Hr Hnot; [done|].
  apply not_elem_of_cons in Hnot as [Hne Hnot]. rewrite exec_cons.
  apply IH; [|done|done]. apply step_receiving; [done|done|congruence].
Qed.

Lemma step_bindInv w e : bindInv w -> e <> CallDestroy -> bindInv (step parse w e).
Proof.
  intros Hinv Hne. pose proof Hinv as (s & Hc & Hh & H).
  destruct e as [| |l| | |i err|i|message|]; cbn [step]; try done.
  - unfold start, Dgram.bind, Dgram.healthCheck. rewrite Hc, Hh.
    unfold Dgram.isUnbound. destruct (Dgram.bindState s) eqn:Hb.
    + eexists. split; [reflexivity|]. split; [done|]. right.
      destruct H as [H|H]; [congruence|]. cbn. apply Forall_app. split; [done|].
      apply Forall_singleton. cbn. auto.
    + exists s. split; [done|]. split; [done|]. right.
      destruct H as [H|H]; [congruence|]. cbn. apply Forall_app. split; [done|].
      apply Forall_singleton. cbn. auto.
    + exists s. split; [done|]. split; [done|]. by left.
  - unfold onListening. rewrite Hc, Hh.
    destruct (Dgram.bindState s) eqn:Hb; try exact Hinv.
    pose proof (bindCallbacks_socket (options w) (runs w)
                  (Dgram.withBindState Dgram.BIND_STATE_BOUND s)) as (Hh' & Hb' & _).
    destruct (bindCallbacks _ _ _) as [[rs s'] th]. cbn [fst snd] in *.
    exists s'. split; [reflexivity|]. split; [by rewrite Hh'|]. left. by rewrite Hb'.
  - unfold onBindError. rewrite Hc, Hh.
    destruct (Dgram.bindState s) eqn:Hb; try exact Hinv.
    eexists. split; [reflexivity|]. split; [done|]. right.
    destruct H as [H|H]; [congruence|]. cbn [setRuns setClient runs].
    change map with (@fmap list _). apply Forall_fmap.
    eapply Forall_impl; [exact H|]. intros r [Hs Hp].
    unfold compose, dropBindCallback.
    destruct Hs as [Hs|Hs]; rewrite Hs; cbn; auto.
  - destruct H as [H|H].
    + exists s. split; [|split; [done|by left]].
      unfold sendCallback. destruct (runs w !! i) as [r|]; [|done].
      destruct (stage r); try done. by destruct err.
    + unfold sendCallback. destruct (runs w !! i) as [r|] eqn:Ei; [|exact Hinv].
      pose proof (Forall_lookup_1 _ _ _ _ H Ei) as [[Hs|Hs] _];
        rewrite Hs; exact Hinv.
  - destruct H as [H|H].
    + exists s. split; [|split; [done|by left]].
      unfold onTick. by destruct (runs w !! i).
    + unfold onTick. destruct (runs w !! i) as [r|] eqn:Ei; [|exact Hinv].
      pose proof (Forall_lookup_1 _ _ _ _ H Ei) as [Hs _].
      assert (fire (devices w) (options w) r = r) as ->
        by (unfold fire; by destruct Hs as [-> | ->]).
      rewrite list_insert_id by done. by destruct w.
  - assert (client (onDatagram parse message w) = Some s /\
            runs (onDatagram parse message w) = runs w) as [Hc' Hr'].
    { unfold onDatagram, onSocketMessage. rewrite Hc.
      destruct (Dgram.receiving s); [|done].
      by destruct (parse message), (debug (options w)). }
    exists s. rewrite Hr'. by repeat split.
  - unfold onClose. by rewrite Hc, Hh.
Qed.

Lemma exec_bindInv es w : bindInv w -> CallDestroy ∉ es -> bindInv (exec parse es w).
Proof.
  revert w. induction es as [|e es IH]; intros w H Hnot; [done|].
  apply not_elem_of_cons in Hnot as [Hne Hnot]. rewrite exec_cons.
  apply IH; [|done]. apply step_bindInv; [done|congruence].
Qed.

Lemma reachable_bindInv g es :
  CallDestroy ∉ es -> bindInv (exec parse es (new_Discover g)).
Proof.
  intros Hnot. apply exec_bindInv; [|done].
  eexists. split; [reflexivity|]. split; [done|]. right. cbn. apply Forall_nil_2.
Qed.

(** On an engine that was never destroyed, a run that waits for its send
    callback, or polls, or is settled otherwise than by the refusal of
    [bind], has a socket that is bound and open. *)
Lemma reachable_past_bind g es i r :
  CallDestroy ∉ es ->
  runs (exec parse es (new_Discover g)) !! i = Some r ->
  stage r = AwaitSend \/ stage r = Polling \/
  (settled (promise r) = true /\
   promise r <> Rejected (Err ERR_SOCKET_ALREADY_BOUND)) ->
  exists s, client (exec parse es (new_Discover g)) = Some s /\
            Dgram.handle s = true /\
            Dgram.bindState s = Dgram.BIND_STATE_BOUND /\
            Dgram.receiving s = true.
Proof.
  intros Hnot Hi Hr.
  destruct (reachable_bindInv g es Hnot) as (s & Hc & Hh & H).
  exists s. split; [done|]. split; [done|].
  assert (Dgram.bindState s = Dgram.BIND_STATE_BOUND) as Hb.
  { destruct H as [H|H]; [done|]. exfalso.
    pose proof (Forall_lookup_1 _ _ _ _ H Hi) as [Hs Hp].
    destruct Hr as [Hr|[Hr|[Hset Hne]]].
    - destruct Hs; congruence.
    - destruct Hs; congruence.
    - destruct Hp as [Hp|Hp]; [by rewrite Hp in Hset|contradiction]. }
  split; [done|]. unfold Dgram.receiving. by rewrite Hh, Hb.
Qed.

End PastBind.

(** C7, amended. On an engine built by the constructor, when the send
    callback reports an error to a run waiting for it, the run's promise is
    rejected with that error at once, the error is written to the console,
    and no timer is armed.  The socket is left as it was: [start] never
    closes it.  If [destroy] has not been called, the socket is open and
    bound at that moment, and under every later sequence of events without
    [destroy] it stays exactly as it is. *)
Theorem send_failure_rejects_and_keeps_socket
    (parse : string -> option IDevice) (g : Given.t) (es : list Event)
    (i : nat) (r : Run) (err : JsError) :
  let w := exec parse es (new_Discover g) in
  runs w !! i = Some r -> stage r = AwaitSend ->
  let w' := sendCallback (Some err) i w in
  runs w' !! i = Some {| stage := Idle; ts := ts r; promise := Rejected (Err err) |} /\
  logged w' = logged w ++ [ConsoleLog err] /\
  client w' = client w /\
  devices w' = devices w /\
  destroys w' = destroys w /\
  (CallDestroy ∉ es ->
   exists s, client w' = Some s /\
     Dgram.handle s = true /\
     Dgram.bindState s = Dgram.BIND_STATE_BOUND /\
     forall es', CallDestroy ∉ es' -> client (exec parse es' w') = Some s).
Proof.
  cbn zeta. intros Hi Hs.
  assert (promise r = Pending) as Hp.
  { pose proof (reachable_runOk parse g es) as Hall.
    apply (runOk_stage_pending _ r (Forall_lookup_1 _ _ _ _ Hall Hi)).
    by rewrite Hs. }
  unfold sendCallback. rewrite Hi, Hs.
  cbn [setRuns addLog runs logged client devices destroys].
  split.
  { rewrite list_lookup_insert_eq by (by eapply lookup_lt_Some). by rewrite Hp. }
  repeat (split; [reflexivity|]).
  intros Hnot.
  destruct (reachable_past_bind parse g es i r Hnot Hi) as (s & Hc & Hh & Hb & Hr);
    [by left|].
  exists s. split; [done|]. split; [done|]. split; [done|].
  intros es' Hnot'. by apply exec_receiving.
Qed.

Lemma send_failure_rejects_and_keeps_socket_witness :
  let w := exec sampleParser [CallStart; Listening]
                (new_Discover (sampleOptions 1 1000)) in
  let r := {| stage := AwaitSend; ts := 0; promise := Pending |} in
  let err := SystemError "EPERM" in
  let w' := sendCallback (Some err) 0%nat w in
  runs w' !! 0%nat = Some {| stage := Idle; ts := ts r; promise := Rejected (Err err) |} /\
  logged w' = logged w ++ [ConsoleLog err] /\
  client w' = client w /\
  devices w' = devices w /\
  destroys w' = destroys w /\
  (CallDestroy ∉ [CallStart; Listening] ->
   exists s, client w' = Some s /\
     Dgram.handle s = true /\
     Dgram.bindState s = Dgram.BIND_STATE_BOUND /\
     forall es', CallDestroy ∉ es' -> client (exec sampleParser es' w') = Some s).
Proof.
  apply (send_failure_rejects_and_keeps_socket sampleParser (sampleOptions 1 1000)
           [CallStart; Listening] 0%nat
           {| stage := AwaitSend; ts := 0; promise := Pending |}
           (SystemError "EPERM")); reflexivity.
Defined.

(** C10. Completion does not stop the datagram handler.  On an engine built
    by the constructor on which [destroy] has not been called, once a
    [start] has got past [bind] (its run has settled, fulfilled or rejected
    otherwise than by the refusal of [bind]; or it still waits for its send
    callback or polls), the socket is bound and open, and a datagram that
    parses to a device is upserted into the device list and emitted as
    [deviceAdded]: afterwards the device is in the list, a device with a
    new identifier is appended at the end, the list is never shorter, and
    the runs are untouched.  No event other than [destroy] changes the
    socket then, and [destroy] ends the reception. *)
Theorem datagrams_handled_until_destroy
    (parse : string -> option IDevice) (g : Given.t) (es : list Event)
    (i : nat) (r : Run) (message : string) (device : IDevice) :
  CallDestroy ∉ es ->
  let w := exec parse es (new_Discover g) in
  runs w !! i = Some r ->
  (settled (promise r) = true /\
   promise r <> Rejected (Err ERR_SOCKET_ALREADY_BOUND)) \/
  stage r = AwaitSend \/ stage r = Polling ->
  parse message = Some device ->
  exists s, client w = Some s /\ Dgram.receiving s = true /\
    let w' := step parse w (Message message) in
    devices w' = (addDevice (devices w) device).1 /\
    device ∈ devices w' /\
    (id device ∉ ids (devices w) -> devices w' = devices w ++ [device]) /\
    (length (devices w) <= length (devices w'))%nat /\
    emitted w' = emitted w ++ [(device, listeners w)] /\
    runs w' = runs w /\
    (forall e, e <> CallDestroy -> client (step parse w e) = Some s) /\
    (exists s', client (step parse w CallDestroy) = Some s' /\
                Dgram.receiving s' = false).
Proof.
  cbn zeta. intros Hnot Hi Hpast Hp.
  destruct (reachable_past_bind parse g es i r Hnot Hi) as (s & Hc & _ & _ & Hr);
    [destruct Hpast as [?|[?|?]]; auto|].
  exists s. split; [done|]. split; [done|].
  destruct (step_message_parsed parse _ s message device Hc Hr Hp)
    as (Hd & He & Hru & _ & _).
  rewrite Hd, He, Hru.
  split; [done|].
  destruct (addDevice_cases (devices (exec parse es (new_Discover g))) device)
    as [[Ha _]|(k & Hk & Hid & Ha)]; rewrite Ha; cbn [fst].
  - split; [apply elem_of_app; right; by apply list_elem_of_singleton|].
    split; [done|]. split; [rewrite length_app; lia|].
    split; [done|]. split; [done|]. split.
    + intros e Hne'. by apply step_receiving.
    + cbn [step]. unfold destroy. rewrite Hc. cbn. by eexists.
  - split; [apply list_elem_of_lookup; exists k;
            apply list_lookup_insert_eq; lia|].
    split.
    { intros Hnew. exfalso. apply Hnew. apply list_elem_of_lookup. by exists k. }
    split; [by rewrite length_insert|].
    split; [done|]. split; [done|]. split.
    + intros e Hne'. by apply step_receiving.
    + cbn [step]. unfold destroy. rewrite Hc. cbn. by eexists.
Qed.

Lemma datagrams_handled_until_destroy_witness :
  let w := exec sampleParser
                [CallStart; Listening; SendDone 0%nat None; Message "abc"; Tick 0%nat]
                (new_Discover (sampleOptions 1 1000)) in
  let device := {| id := "def"; location := "yeelight://192.168.1.10:55443";
                   model := "color" |} in
  exists s, client w = Some s /\ Dgram.receiving s = true /\
    let w' := step sampleParser w (Message "def") in
    devices w' = (addDevice (devices w) device).1 /\
    device ∈ devices w' /\
    (id device ∉ ids (devices w) -> devices w' = devices w ++ [device]) /\
    (length (devices w) <= length (devices w'))%nat /\
    emitted w' = emitted w ++ [(device, listeners w)] /\
    runs w' = runs w /\
    (forall e, e <> CallDestroy -> client (step sampleParser w e) = Some s) /\
    (exists s', client (step sampleParser w CallDestroy) = Some s' /\
                Dgram.receiving s' = false).
Proof.
  apply (datagrams_handled_until_destroy sampleParser (sampleOptions 1 1000)
           [CallStart; Listening; SendDone 0%nat None; Message "abc"; Tick 0%nat]
           0%nat {| stage := Idle; ts := 200; promise := Fulfilled ThisDevices |}
           "def"
           {| id := "def"; location := "yeelight://192.168.1.10:55443";
              model := "color" |}).
  - rewrite !not_elem_of_cons. repeat split; try discriminate.
    apply not_elem_of_nil.
  - reflexivity.
  - left. split; [reflexivity|discriminate].
  - reflexivity.
Defined.

(** The device list before and after that datagram, spelled out: the list
    really changes. *)
Lemma datagram_after_completion_extends_list :
  let w := exec sampleParser
                [CallStart; Listening; SendDone 0%nat None; Message "abc"; Tick 0%nat]
                (new_Discover (sampleOptions 1 1000)) in
  (promise <$> runs w) = [Fulfilled ThisDevices] /\
  ids (devices w) = ["abc"] /\
  ids (devices (step sampleParser w (Message "def"))) = ["abc"; "def"] /\
  length (emitted (step sampleParser w (Message "def"))) = 2%nat.
Proof. vm_compute. repeat split; reflexivity. Qed.

(** ** A second [start] beside the first *)

Section SecondStart.

Variable parse : string -> option IDevice.

Implicit Types (w : Discover) (e : Event) (es : list Event)
  (s : Dgram.Socket) (r : Run) (rs : list Run).

Lemma socket_eq s1 s2 :
  Dgram.bindState s1 = Dgram.bindState s2 ->
  Dgram.handle s1 = Dgram.handle s2 ->
  Dgram.broadcast s1 = Dgram.broadcast s2 ->
  Dgram.closeListeners s1 = Dgram.closeListeners s2 ->
  Dgram.closeEmitted s1 = Dgram.closeEmitted s2 ->
  Dgram.sent s1 = Dgram.sent s2 ->
  s1 = s2.
Proof. destruct s1, s2. cbn. by intros -> -> -> -> -> ->. Qed.

(** What the bind callbacks leave of the socket depends on the runs only
    through the number of waiting ones. *)
Lemma bindCallbacks_socket_awaiting o rsA rsB s :
  awaitingBind rsA = awaitingBind rsB ->
  (bindCallbacks o rsA s).1.2 = (bindCallbacks o rsB s).1.2.
Proof.
  intros Haw.
  pose proof (bindCallbacks_socket o rsA s) as (HhA & HbA & HlA & HcA).
  pose proof (bindCallbacks_socket o rsB s) as (HhB & HbB & HlB & HcB).
  pose proof (bindCallbacks_sent o rsA s) as (HsA & HbrA).
  pose proof (bindCallbacks_sent o rsB s) as (HsB & HbrB).
  rewrite Haw in HsA, HbrA.
  apply socket_eq; congruence.
Qed.

Lemma insert_as_alter (f : Run -> Run) rs j r :
  rs !! j = Some r -> <[j := f r]> rs = alter f j rs.
Proof.
  intros Hj. apply list_eq. intros k. destruct (decide (j = k)) as [->|Hne].
  - rewrite list_lookup_insert_eq by (by eapply lookup_lt_Some).
    by rewrite list_lookup_alter_eq, Hj.
  - by rewrite list_lookup_insert_ne, list_lookup_alter_ne.
Qed.

Lemma alter_absent (f : Run -> Run) rs j : rs !! j = None -> alter f j rs = rs.
Proof.
  intros Hj. apply list_eq. intros k. destruct (decide (j = k)) as [->|Hne].
  - by rewrite list_lookup_alter_eq, Hj.
  - by rewrite list_lookup_alter_ne.
Qed.

Lemma sendCallback_runs err j w :
  runs (sendCallback err j w) = alter (sendRun err) j (runs w).
Proof.
  unfold sendCallback. destruct (runs w !! j) as [r|] eqn:Ej.
  - rewrite <- (insert_as_alter (sendRun err) _ j r Ej). unfold sendRun.
    destruct (stage r); try (by rewrite list_insert_id).
    by destruct err.
  - by rewrite alter_absent.
Qed.

Lemma onTick_runs j w :
  runs (onTick j w) = alter (fire (devices w) (options w)) j (runs w).
Proof.
  unfold onTick. destruct (runs w !! j) as [r|] eqn:Ej.
  - by rewrite <- (insert_as_alter _ _ j r Ej).
  - by rewrite alter_absent.
Qed.

Lemma awaitingBind_alter (f : Run -> Run) rs j :
  (forall r, stage r = AwaitListening -> f r = r) ->
  (forall r, stage r <> AwaitListening -> stage (f r) <> AwaitListening) ->
  awaitingBind (alter f j rs) = awaitingBind rs.
Proof.
  intros Hsame Hnot. revert j. induction rs as [|x rs IH]; intros j; [done|].
  destruct j as [|j].
  - change (alter f 0%nat (x :: rs)) with (f x :: rs). cbn [awaitingBind].
    destruct (stage x) eqn:Ex.
    + by rewrite (Hsame x Ex), Ex.
    + assert (stage (f x) <> AwaitListening) by (apply Hnot; by rewrite Ex).
      by destruct (stage (f x)).
    + assert (stage (f x) <> AwaitListening) by (apply Hnot; by rewrite Ex).
      by destruct (stage (f x)).
    + assert (stage (f x) <> AwaitListening) by (apply Hnot; by rewrite Ex).
      by destruct (stage (f x)).
  - change (alter f (S j) (x :: rs)) with (x :: alter f j rs).
    cbn [awaitingBind]. by rewrite IH.
Qed.

Lemma runsAgree_app n rsA rsB x :
  runsAgree n rsA rsB -> runsAgree n (rsA ++ [x]) (rsB ++ [x]).
Proof.
  intros (Hl & HA & HB & Haw). unfold runsAgree.
  rewrite !length_app, !awaitingBind_app, Haw. repeat split; try lia.
  intros i Hi. rewrite !lookup_app_l by lia. by apply Hl.
Qed.

Lemma runsAgree_fmap n rsA rsB (f : Run -> Run) :
  (forall rs, awaitingBind (f <$> rs) = 0%nat) ->
  runsAgree n rsA rsB -> runsAgree n (f <$> rsA) (f <$> rsB).
Proof.
  intros Hz (Hl & HA & HB & Haw). unfold runsAgree.
  rewrite !length_fmap, !Hz. repeat split; try done.
  intros i Hi. by rewrite !list_lookup_fmap, Hl.
Qed.

Lemma runsAgree_alter n rsA rsB (f : Run -> Run) j :
  (forall r, stage r = AwaitListening -> f r = r) ->
  (forall r, stage r <> AwaitListening -> stage (f r) <> AwaitListening) ->
  runsAgree n rsA rsB -> runsAgree n (alter f j rsA) (alter f j rsB).
Proof.
  intros Hsame Hnot (Hl & HA & HB & Haw). unfold runsAgree.
  rewrite !length_alter, !awaitingBind_alter by done. repeat split; try done.
  intros i Hi. destruct (decide (j = i)) as [->|Hne].
  - by rewrite !list_lookup_alter_eq, Hl.
  - rewrite !list_lookup_alter_ne by done. by apply Hl.
Qed.

Lemma sendRun_keeps_awaiting err :
  (forall r, stage r = AwaitListening -> sendRun err r = r) /\
  (forall r, stage r <> AwaitListening -> stage (sendRun err r) <> AwaitListening).
Proof.
  split; intros r Hr; unfold sendRun.
  - by rewrite Hr.
  - destruct (stage r) eqn:E; try (by rewrite E). by destruct err.
Qed.

Lemma fire_keeps_awaiting ds o :
  (forall r, stage r = AwaitListening -> fire ds o r = r) /\
  (forall r, stage r <> AwaitListening -> stage (fire ds o r) <> AwaitListening).
Proof.
  split; intros r Hr.
  - unfold fire. by rewrite Hr.
  - by apply fire_not_awaiting.
Qed.

(** Every event takes two engines that agree below [n] to engines that
    agree below [n]. *)
Local Ltac agree_fields := unfold agreeBelow; cbn; do 6 (split; [done|]).

Lemma step_agreeBelow n wA wB e :
  agreeBelow n wA wB -> agreeBelow n (step parse wA e) (step parse wB e).
Proof.
  destruct wA as [dA oA cA lA rA dsA eA gA], wB as [dB oB cB lB rB dsB eB gB].
  intros (Hd & Ho & Hc & Hl & Hds & He & Hr).
  cbn in Hd, Ho, Hc, Hl, Hds, He, Hr. subst.
  destruct e as [| |l| | |i err|i|message|]; cbn [step].
  - unfold start. cbn [client]. destruct cB as [s|].
    + destruct (Dgram.bind s); agree_fields; by apply runsAgree_app.
    + agree_fields. by apply runsAgree_app.
  - unfold destroy. cbn [client destroys]. destruct cB as [s|]; by agree_fields.
  - by agree_fields.
  - unfold onListening. cbn [client options runs].
    destruct cB as [s|]; [|by agree_fields].
    destruct (Dgram.handle s), (Dgram.bindState s); try (by agree_fields).
    pose proof (bindCallbacks_runs oB rA
                  (Dgram.withBindState Dgram.BIND_STATE_BOUND s)) as HrA.
    pose proof (bindCallbacks_runs oB rB
                  (Dgram.withBindState Dgram.BIND_STATE_BOUND s)) as HrB.
    pose proof (bindCallbacks_socket_awaiting oB rA rB
                  (Dgram.withBindState Dgram.BIND_STATE_BOUND s)) as Hs.
    pose proof Hr as (_ & _ & _ & Haw). specialize (Hs Haw).
    destruct (bindCallbacks oB rA _) as [[rA' sA] thA].
    destruct (bindCallbacks oB rB _) as [[rB' sB] thB].
    cbn [fst snd] in *. subst. agree_fields. change map with (@fmap list _).
    apply runsAgree_fmap; [|done].
    intros rs. apply awaitingBind_afterListening.
  - unfold onBindError. cbn [client runs].
    destruct cB as [s|]; [|by agree_fields].
    destruct (Dgram.handle s), (Dgram.bindState s); try (by agree_fields).
    agree_fields. change map with (@fmap list _).
    apply runsAgree_fmap; [|done].
    intros rs. apply awaitingBind_dropBindCallback.
  - assert (forall w, devices (sendCallback err i w) = devices w /\
                      options (sendCallback err i w) = options w /\
                      client (sendCallback err i w) = client w /\
                      listeners (sendCallback err i w) = listeners w /\
                      destroys (sendCallback err i w) = destroys w /\
                      emitted (sendCallback err i w) = emitted w) as Hframe.
    { intros w. unfold sendCallback. destruct (runs w !! i) as [r|]; [|done].
      destruct (stage r); try done. by destruct err. }
    unfold agreeBelow. rewrite !sendCallback_runs.
    match goal with |- context [sendCallback err i ?w] =>
      destruct (Hframe w) as (-> & -> & -> & -> & -> & ->) end.
    match goal with |- context [sendCallback err i ?w] =>
      destruct (Hframe w) as (-> & -> & -> & -> & -> & ->) end.
    cbn. do 6 (split; [done|]).
    destruct (sendRun_keeps_awaiting err). by apply runsAgree_alter.
  - assert (forall w, devices (onTick i w) = devices w /\
                      options (onTick i w) = options w /\
                      client (onTick i w) = client w /\
                      listeners (onTick i w) = listeners w /\
                      destroys (onTick i w) = destroys w /\
                      emitted (onTick i w) = emitted w) as Hframe.
    { intros w. unfold onTick. by destruct (runs w !! i). }
    unfold agreeBelow. rewrite !onTick_runs.
    match goal with |- context [onTick i ?w] =>
      destruct (Hframe w) as (-> & -> & -> & -> & -> & ->) end.
    match goal with |- context [onTick i ?w] =>
      destruct (Hframe w) as (-> & -> & -> & -> & -> & ->) end.
    cbn. do 6 (split; [done|]).
    destruct (fire_keeps_awaiting dB oB). by apply runsAgree_alter.
  - unfold onDatagram, onSocketMessage. cbn [client options].
    destruct cB as [s|]; [|by agree_fields].
    destruct (Dgram.receiving s); [|by agree_fields].
    destruct (parse message), (debug oB); by agree_fields.
  - unfold onClose. cbn [client destroys]. destruct cB as [s|];
      [|by agree_fields].
    destruct (negb (Dgram.handle s) && negb (Dgram.closeEmitted s));
      by agree_fields.
Qed.

Lemma exec_agreeBelow n es wA wB :
  agreeBelow n wA wB -> agreeBelow n (exec parse es wA) (exec parse es wB).
Proof.
  revert wA wB. induction es as [|e es IH]; intros wA wB H; [done|].
  rewrite !exec_cons. apply IH. by apply step_agreeBelow.
Qed.

(** An engine with a run that has nothing scheduled added at the end
    agrees with the engine without it, below the added run. *)
Lemma addRun_agreeBelow w r0 :
  stage r0 = Idle -> agreeBelow (length (runs w)) (addRun r0 w) w.
Proof.
  intros H0. unfold agreeBelow, runsAgree. cbn.
  rewrite length_app, awaitingBind_app. cbn. rewrite H0.
  repeat split; try done; try lia.
  intros i Hi. by rewrite lookup_app_l.
Qed.

(** Once [destroy] was called the socket is closed. *)
Lemma destroyed_socket_closed g es :
  CallDestroy ∈ es ->
  exists s, client (exec parse es (new_Discover g)) = Some s /\
            Dgram.handle s = false.
Proof.
  intros Hin. apply list_elem_of_split in Hin as (es1 & es2 & ->).
  rewrite exec_app, exec_cons.
  set (w0 := exec parse es1 (new_Discover g)).
  assert (is_Some (client w0)) as [s0 Hc0].
  { apply exec_client_some. by eexists. }
  assert (client (step parse w0 CallDestroy) =
          Some (Dgram.close (length (destroys w0)) s0).1) as Hc1.
  { cbn [step]. unfold destroy. by rewrite Hc0. }
  destruct (exec_closed parse es2 _ _ Hc1) as (s & Hc & Hh & _); [reflexivity|].
  by exists s.
Qed.

End SecondStart.

(** C5, amended. The class has no started flag: a further [start] calls
    [bind] again.  After a first [start], and as long as no bind failed,
    the promise of a further [start] is rejected with the exception thrown
    by the socket's [bind]: already bound while the socket is open, which
    it is exactly as long as [destroy] was not called, and not running once
    [destroy] has closed it.  The call adds this rejected promise and
    changes nothing else: under every later sequence of events the device
    list, the options, the socket, the listeners, the [destroy] promises,
    the emissions and every run that existed before the call are the same
    as without it; and when no further [start] follows, the whole engine is
    the same but for the added promise. *)
Theorem second_start_rejected_by_socket
    (parse : string -> option IDevice) (g : Given.t) (es es' : list Event) :
  BindFailed ∉ es ->
  let w := exec parse (CallStart :: es) (new_Discover g) in
  exists s, client w = Some s /\
    (CallDestroy ∉ es -> Dgram.handle s = true) /\
    (CallDestroy ∈ es -> Dgram.handle s = false) /\
    let rejected :=
      {| stage := Idle; ts := 0;
         promise := Rejected (Err (if Dgram.handle s
                                   then ERR_SOCKET_ALREADY_BOUND
                                   else ERR_SOCKET_DGRAM_NOT_RUNNING)) |} in
    start w = addRun rejected w /\
    agreeBelow (length (runs w)) (exec parse es' (start w)) (exec parse es' w) /\
    (CallStart ∉ es' ->
     exec parse es' (start w) = addRun rejected (exec parse es' w)).
Proof.
  intros Hes. cbn zeta.
  assert (exists s, client (exec parse (CallStart :: es) (new_Discover g)) = Some s
                    /\ taken s) as (s & Hc & Ht).
  { rewrite exec_cons.
    apply (exec_taken parse es _
             (Dgram.withBindState Dgram.BIND_STATE_BINDING Dgram.createSocket));
      [reflexivity|by right|done]. }
  exists s. split; [exact Hc|]. split; [|split].
  - intros Hnd.
    destruct (exec_open parse es (step parse (new_Discover g) CallStart)
                (Dgram.withBindState Dgram.BIND_STATE_BINDING Dgram.createSocket))
      as (s' & Hc' & Hh'); [reflexivity|reflexivity|done|].
    rewrite exec_cons in Hc. congruence.
  - intros Hd.
    destruct (destroyed_socket_closed parse g (CallStart :: es)) as (s' & Hc' & Hh').
    { apply elem_of_cons. by right. }
    congruence.
  - pose proof (start_taken _ s Hc Ht) as Hst.
    split; [exact Hst|]. rewrite Hst. split.
    + apply exec_agreeBelow. by apply addRun_agreeBelow.
    + intros Hes'. by apply exec_addRun_inert.
Qed.

Lemma second_start_rejected_by_socket_witness :
  let es := [Listening; SendDone 0%nat None; CallDestroy] in
  let es' := [Message "abc"; Tick 0%nat; CallStart; Tick 0%nat] in
  let w := exec sampleParser (CallStart :: es) (new_Discover (sampleOptions 1 1000)) in
  exists s, client w = Some s /\
    (CallDestroy ∉ es -> Dgram.handle s = true) /\
    (CallDestroy ∈ es -> Dgram.handle s = false) /\
    let rejected :=
      {| stage := Idle; ts := 0;
         promise := Rejected (Err (if Dgram.handle s
                                   then ERR_SOCKET_ALREADY_BOUND
                                   else ERR_SOCKET_DGRAM_NOT_RUNNING)) |} in
    start w = addRun rejected w /\
    agreeBelow (length (runs w)) (exec sampleParser es' (start w))
               (exec sampleParser es' w) /\
    (CallStart ∉ es' ->
     exec sampleParser es' (start w) = addRun rejected (exec sampleParser es' w)).
Proof.
  apply (second_start_rejected_by_socket sampleParser (sampleOptions 1 1000)
           [Listening; SendDone 0%nat None; CallDestroy]
           [Message "abc"; Tick 0%nat; CallStart; Tick 0%nat]).
  rewrite !not_elem_of_cons. repeat split; try discriminate.
  apply not_elem_of_nil.
Defined.

(** The two rejections, spelled out: a second [start] while the first is
    polling, and a second [start] after [destroy]. *)
Lemma second_start_rejections :
  runs (exec sampleParser [CallStart; Listening; SendDone 0%nat None; CallStart]
             (new_Discover (sampleOptions 1 1000))) =
    [ armed;
      {| stage := Idle; ts := 0;
         promise := Rejected (Err ERR_SOCKET_ALREADY_BOUND) |} ] /\
  runs (exec sampleParser
             [CallStart; Listening; SendDone 0%nat None; CallDestroy; CallStart]
             (new_Discover (sampleOptions 1 1000))) =
    [ armed;
      {| stage := Idle; ts := 0;
         promise := Rejected (Err ERR_SOCKET_DGRAM_NOT_RUNNING) |} ].
Proof. vm_compute. split; reflexivity. Qed.

(** ** A port that [send] refuses *)

(** X17. With a configured port outside 1..65535 the probe never leaves:
    [bind] succeeds, the bind callback sets the broadcast flag, [send]
    throws a bad-port error out of the callback, nothing is sent, no timer
    is armed, and the promise of [start] is neither resolved nor rejected,
    now and under every later sequence of events; the socket is left bound
    and open. *)
Theorem bad_port_start_never_settles
    (parse : string -> option IDevice) (g : Given.t) (es : list Event) :
  Dgram.validPort (port (mergeOptions defaultOptions g)) = false ->
  let w := exec parse [CallStart; Listening] (new_Discover g) in
  runs w = [ {| stage := Idle; ts := 0; promise := Pending |} ] /\
  logged w = [Uncaught ERR_SOCKET_BAD_PORT] /\
  client w = Some {| Dgram.bindState := Dgram.BIND_STATE_BOUND;
                     Dgram.handle := true; Dgram.broadcast := true;
                     Dgram.closeListeners := []; Dgram.closeEmitted := false;
                     Dgram.sent := [] |} /\
  runs (exec parse es w) !! 0%nat =
    Some {| stage := Idle; ts := 0; promise := Pending |}.
Proof.
  intros Hp. cbn zeta.
  assert (exec parse [CallStart; Listening] (new_Discover g) =
          {| devices := []; options := mergeOptions defaultOptions g;
             client := Some {| Dgram.bindState := Dgram.BIND_STATE_BOUND;
                               Dgram.handle := true; Dgram.broadcast := true;
                               Dgram.closeListeners := [];
                               Dgram.closeEmitted := false; Dgram.sent := [] |};
             listeners := [];
             runs := [ {| stage := Idle; ts := 0; promise := Pending |} ];
             destroys := []; emitted := [];
             logged := [Uncaught ERR_SOCKET_BAD_PORT] |}) as ->.
  { unfold new_Discover.
    set (o := mergeOptions defaultOptions g) in *. clearbody o.
    cbn [exec foldl step]. unfold onListening, start. cbn.
    unfold Dgram.send, Dgram.sendError. cbn. rewrite Hp. reflexivity. }
  repeat (split; [reflexivity|]).
  by apply exec_idle_frozen.
Qed.

Lemma bad_port_start_never_settles_witness :
  let g := {| Given.debug := Some false; Given.host := None; Given.limit := None;
              Given.multicastHost := None; Given.port := Some 0;
              Given.timeout := None |} in
  let w := exec sampleParser [CallStart; Listening] (new_Discover g) in
  runs w = [ {| stage := Idle; ts := 0; promise := Pending |} ] /\
  logged w = [Uncaught ERR_SOCKET_BAD_PORT] /\
  client w = Some {| Dgram.bindState := Dgram.BIND_STATE_BOUND;
                     Dgram.handle := true; Dgram.broadcast := true;
                     Dgram.closeListeners := []; Dgram.closeEmitted := false;
                     Dgram.sent := [] |} /\
  runs (exec sampleParser [SendDone 0%nat None; Message "abc"; Tick 0%nat] w) !! 0%nat =
    Some {| stage := Idle; ts := 0; promise := Pending |}.
Proof.
  apply (bad_port_start_never_settles sampleParser
           {| Given.debug := Some false; Given.host := None; Given.limit := None;
              Given.multicastHost := None; Given.port := Some 0;
              Given.timeout := None |}
           [SendDone 0%nat None; Message "abc"; Tick 0%nat]).
  reflexivity.
Defined.
